(** * Mimas script engine: parser, player and engine

    A shallow embedding of the [Script] namespace (Parser, Label,
    ValueContainer, Sequence, Player, Engine and the Command hierarchy) and of
    the [Command.Log] one-shot command, with the properties of the design
    description stated and settled against it.

    Conventions of the embedding.
    - Script text is a [string] with one [ascii] per character, indexed from 0;
      [script[p]] past the end is [None] (JavaScript's [undefined]). The fixed
      text of the parser's messages is kept as the bytes of its encoding.
    - JavaScript numbers that hold positions, line numbers and program
      counters are integers here ([nat] where the code keeps them
      non-negative, [Z] where -1 can occur).
    - An object used as a dictionary is a [gmap] from property name to value;
      a lookup that misses is [None] ([undefined]); inherited properties of
      [Object.prototype] are not part of the model.
    - Objects with identity (command instances, players) live in a store and
      are named by references, so that two holders of one object see each
      other's writes.
    - A loop that may spin forever takes fuel; running out of it is the
      distinct outcome [OutOfFuel]. *)

From Stdlib Require Import ZArith String Ascii DecimalString.
From stdpp Require Import gmap strings list.

Local Open Scope string_scope.
Local Open Scope list_scope.

(** ** Outcomes of a call

    A call returns a value, throws, or (for a loop that never ends) exhausts
    any amount of fuel. [Error] is [Error(message)]; [TypeError] is the
    engine's own exception for a member access on [undefined]. *)

Inductive Exception :=
| Error (message : string)
| TypeError.

Inductive Outcome (A : Type) :=
| Returned (a : A)
| Thrown (e : Exception)
| OutOfFuel.
Arguments Returned {A} a.
Arguments Thrown {A} e.
Arguments OutOfFuel {A}.

(** ** Strings as the code uses them *)

Module JsString.

Definition charAt (s : string) (p : nat) : option ascii := String.get p s.

Fixpoint drop (p : nat) (s : string) : string :=
  match p, s with
  | O, _ => s
  | S p', String _ s' => drop p' s'
  | S _, EmptyString => EmptyString
  end.

(** [s.indexOf(c)] for a one-character needle: first position, or -1. *)
Fixpoint indexOf_go (c : ascii) (s : string) (i : Z) : Z :=
  match s with
  | EmptyString => (-1)%Z
  | String d s' => if Ascii.eqb d c then i else indexOf_go c s' (i + 1)%Z
  end.

Definition indexOf (c : ascii) (s : string) : Z := indexOf_go c s 0%Z.

(** [s.indexOf(c, p)]: the search starts at position [p]. *)
Definition indexOfFrom (c : ascii) (s : string) (p : nat) : Z :=
  indexOf_go c (drop p s) (Z.of_nat p).

(** [s.substr(p, len)]: a length that is not positive gives the empty
    string; the result is cut at the end of [s]. *)
Definition substr (s : string) (p : nat) (len : Z) : string :=
  if (len <=? 0)%Z then EmptyString else String.substring p (Z.to_nat len) s.

(** The one-character membership tests [chars.indexOf(x) >= 0]; an
    [undefined] operand is searched as the text "undefined" and is never
    found in these character classes. *)
Definition member (chars : string) (x : option ascii) : bool :=
  match x with
  | Some c => (0 <=? indexOf c chars)%Z
  | None => false
  end.

(** The white space and line terminators that [trim] strips, among the
    characters below 256: tab to carriage return, space, no-break space. *)
Definition is_space (c : ascii) : bool :=
  let n := nat_of_ascii c in
  (((9 <=? n) && (n <=? 13)) || (n =? 32) || (n =? 160))%nat.

Fixpoint trim_left (s : string) : string :=
  match s with
  | String c s' => if is_space c then trim_left s' else s
  | EmptyString => EmptyString
  end.

(** Strips trailing white space: a character is kept when it is not a
    space or when something is kept after it. *)
Fixpoint trim_right (s : string) : string :=
  match s with
  | EmptyString => EmptyString
  | String c s' =>
      match trim_right s' with
      | EmptyString => if is_space c then EmptyString else String c EmptyString
      | t => String c t
      end
  end.

Definition trim (s : string) : string := trim_right (trim_left s).

(** Decimal rendering of a number in a string concatenation. *)
Definition ofNat (n : nat) : string := NilEmpty.string_of_uint (Nat.to_uint n).

End JsString.

(** ** The parser *)

Module Parser.

Import JsString.

Definition newline : ascii := ascii_of_nat 10.
Definition tab : ascii := ascii_of_nat 9.
Definition cr : ascii := ascii_of_nat 13.
Definition quote : ascii := ascii_of_nat 34.

(** The separator class " \t\r\n;," *)
Definition separators : string :=
  String " " (String tab (String cr (String newline ";,"))).

Definition numeric : string := "-+.0123456789".

(** [script[p].match(/[a-z]/i)] *)
Definition is_letter (c : ascii) : bool :=
  let n := nat_of_ascii c in
  (((65 <=? n) && (n <=? 90)) || ((97 <=? n) && (n <=? 122)))%nat.

(** An element of the [currentCommand] array: the name token and string
    arguments are strings; a numeric argument is [parseFloat(literal)],
    kept as its literal since floating point is not interpreted here. *)
Inductive Arg :=
| ArgString (s : string)
| ArgNumber (literal : string).

Inductive State :=
| St_default
| St_whitespace
| St_singlelinecomment
| St_function
| St_argument
| St_argument_string
| St_argument_number.

(** The three diagnostics of the parser. *)
Definition syntax_message (filename : string) (line : nat) : string :=
  "スクリプトエラー:" +:+ filename +:+ ":" +:+ ofNat line
    +:+ " 構文が解釈できませんでした ".

Definition unsupported_message (filename : string) (line : nat) (commandName : string) : string :=
  "スクリプトエラー:" +:+ filename +:+ ":" +:+ ofNat line
    +:+ " 対応していないコマンドが指定されました(" +:+ commandName +:+ ") ".

Definition argument_message (filename : string) (line : nat) : string :=
  "スクリプトエラー:" +:+ filename +:+ ":" +:+ ofNat line
    +:+ " 引数の指定が想定外のフォーマットです".

(** The closure [skip_whitespace]: advances over separators and counts the
    newlines it passes in the enclosing [line]. *)
Fixpoint skip_whitespace_go (rest : string) (p line : nat) : nat * nat :=
  match rest with
  | String c rest' =>
      if member separators (Some c)
      then skip_whitespace_go rest' (S p) (if Ascii.eqb c newline then S line else line)
      else (p, line)
  | EmptyString => (p, line)
  end.

Definition skip_whitespace (s : string) (p line : nat) : nat * nat :=
  skip_whitespace_go (drop p s) p line.

(** [while (script[p++] !== "\n") ;] leaves [p] one past the first newline
    at or after [p]. Past the end [script[p]] is [undefined], which is not a
    newline, so the loop only stops at a newline. *)
Fixpoint skip_comment (fuel : nat) (script : string) (p : nat) : option nat :=
  match fuel with
  | O => None
  | S fuel' =>
      match charAt script p with
      | Some c => if Ascii.eqb c newline then Some (S p) else skip_comment fuel' script (S p)
      | None => skip_comment fuel' script (S p)
      end
  end.

(** [while ("-+.0123456789".indexOf(script[index]) >= 0) index++] *)
Fixpoint scan_number_go (rest : string) (index : nat) : nat :=
  match rest with
  | String c rest' => if member numeric (Some c) then scan_number_go rest' (S index) else index
  | EmptyString => index
  end.

Definition scan_number (script : string) (p : nat) : nat := scan_number_go (drop p script) p.

Section Parse.

(** The type of the objects the factories build. *)
Context {Command : Type}.

(** The local variables of [parse]. [stateStack] has its top first. *)
Record Locals := mkLocals {
  commands : list Command;
  currentCommand : option (list Arg);
  p : nat;
  state : option State;
  stateStack : list State;
  line : nat
}.

Definition set_state (st : option State) (stack : list State) (m : Locals) : Locals :=
  mkLocals (commands m) (currentCommand m) (p m) st stack (line m).

Definition set_pos (p' line' : nat) (m : Locals) : Locals :=
  mkLocals (commands m) (currentCommand m) p' (state m) (stateStack m) line'.

(** [stateStack.push(state); state = next] *)
Definition push_to (cur next : State) (m : Locals) : Locals :=
  set_state (Some next) (cur :: stateStack m) m.

(** [state = stateStack.pop()]; popping an empty array gives [undefined]. *)
Definition pop_state (m : Locals) : Locals :=
  match stateStack m with
  | st :: stack => set_state (Some st) stack m
  | [] => set_state None [] m
  end.

(** [currentCommand.push(x)]; on [undefined] the call throws. *)
Definition push_arg (x : Arg) (m : Locals) : Outcome Locals :=
  match currentCommand m with
  | Some a => Returned (mkLocals (commands m) (Some (a ++ [x])) (p m) (state m) (stateStack m) (line m))
  | None => Thrown TypeError
  end.

(** The property name under which the shifted head is looked up. The head
    is always the name token stored by [currentCommand = [token]]. *)
Definition propertyKey (x : option Arg) : string :=
  match x with
  | Some (ArgString s) => s
  | Some (ArgNumber literal) => literal
  | None => "undefined"
  end.

Variable commandTable : gmap string (list Arg -> Command).
Variable script : string.
Variable filename : string.

(** One pass through the body of the [switch], entered with
    [p < script.length]. *)
Definition step (fuel : nat) (m : Locals) : Outcome Locals :=
  match state m with
  | None => Returned m
  | Some St_default =>
      if member separators (charAt script (p m)) then Returned (push_to St_default St_whitespace m)
      else if match charAt script (p m), charAt script (S (p m)) with
              | Some a, Some b => Ascii.eqb a "/" && Ascii.eqb b "/"
              | _, _ => false
              end
      then Returned (push_to St_default St_singlelinecomment m)
      else if match charAt script (p m) with Some c => is_letter c | None => false end
      then Returned (push_to St_default St_function m)
      else Thrown (Error (syntax_message filename (line m)))
  | Some St_whitespace =>
      let '(p', line') := skip_whitespace script (p m) (line m) in
      Returned (pop_state (set_pos p' line' m))
  | Some St_singlelinecomment =>
      match skip_comment fuel script (p m) with
      | Some p' => Returned (pop_state (set_pos p' (S (line m)) m))
      | None => OutOfFuel
      end
  | Some St_function =>
      let '(p', line') := skip_whitespace script (p m) (line m) in
      let m := set_pos p' line' m in
      if bool_decide (charAt script p' = Some ")"%char) then
        match currentCommand m with
        | None => Thrown TypeError
        | Some a =>
            let commandName := propertyKey (head a) in
            match commandTable !! commandName with
            | None => Thrown (Error (unsupported_message filename line' commandName))
            | Some factory =>
                Returned (pop_state
                  (mkLocals (commands m ++ [factory (tail a)]) (Some (tail a))
                            (S p') (state m) (stateStack m) line'))
            end
        end
      else
        let index := indexOfFrom "(" script p' in
        let token := trim (substr script p' (index - Z.of_nat p')) in
        Returned (push_to St_function St_argument
          (mkLocals (commands m) (Some [ArgString token])
                    (Z.to_nat (index + 1)) (state m) (stateStack m) line'))
  | Some St_argument =>
      let '(p', line') := skip_whitespace script (p m) (line m) in
      let m := set_pos p' line' m in
      if bool_decide (charAt script p' = Some ")"%char) then Returned (pop_state m)
      else if bool_decide (charAt script p' = Some quote)
      then Returned (push_to St_argument St_argument_string m)
      else if member numeric (charAt script p')
      then Returned (push_to St_argument St_argument_number m)
      else Thrown (Error (argument_message filename line'))
  | Some St_argument_string =>
      let p' := S (p m) in
      let index := indexOfFrom quote script p' in
      let token := substr script p' (index - Z.of_nat p') in
      match push_arg (ArgString token) m with
      | Returned m' => Returned (pop_state (set_pos (Z.to_nat (index + 1)) (line m) m'))
      | Thrown e => Thrown e
      | OutOfFuel => OutOfFuel
      end
  | Some St_argument_number =>
      let index := scan_number script (p m) in
      let token := substr script (p m) (Z.of_nat index - Z.of_nat (p m)) in
      match push_arg (ArgNumber token) m with
      | Returned m' => Returned (pop_state (set_pos index (line m) m'))
      | Thrown e => Thrown e
      | OutOfFuel => OutOfFuel
      end
  end.

(** [while (p < script.length) { switch ... }  return commands;] *)
Fixpoint loop (fuel : nat) (m : Locals) : Outcome (list Command) :=
  match fuel with
  | O => OutOfFuel
  | S fuel' =>
      if (p m <? String.length script)%nat then
        match step fuel' m with
        | Returned m' => loop fuel' m'
        | Thrown e => Thrown e
        | OutOfFuel => OutOfFuel
        end
      else Returned (commands m)
  end.

Definition initial : Locals := mkLocals [] None 0 (Some St_default) [] 1.

Definition parse (fuel : nat) : Outcome (list Command) := loop fuel initial.

End Parse.

End Parser.

(** ** The engine's objects *)

(** References to command objects and to [Player] objects. *)
Definition CmdRef := nat.
Definition PlayerRef := nat.

(** A value kept in the [ValueContainer] ([any] in the code; the container
    never inspects it). *)
Inductive Value :=
| VUndefined
| VBoolean (b : bool)
| VNumber (n : Z)
| VString (s : string).

Record Label := mkLabel {
  label_scriptName : string;
  label_labelName : string;
  label_index : nat
}.

(** [Sequence]: [program] is [undefined] until the first [register]. *)
Record Sequence := mkSequence {
  seq_scriptName : string;
  program : option (list CmdRef)
}.

(** What [Player.currentCommand] holds: a sentinel the player built itself
    ([new CommandReady()], [new CommandHalt()]; nothing else refers to these
    objects) or a command fetched from the sequence. *)
Inductive CurrentCommand :=
| NewCommandReady
| NewCommandHalt
| Fetched (c : CmdRef).

(** [Player]: [sequence] refers to a [Sequence] object by the name under
    which the engine holds it, or is [None] when the constructor was handed
    [undefined]. *)
Record Player := mkPlayer {
  sequence : option string;
  currentCommand : CurrentCommand;
  programCounter : Z
}.

(** [Engine], together with the store of the objects it reaches: the
    [Player] objects by reference, the [commandFinished] field of the
    continuous commands, and what was written to the console. [callStack] is
    the array as it is: [push] adds at the end, [pop] takes from the end. *)
Record Engine := mkEngine {
  sequences : gmap string Sequence;
  player : option PlayerRef;
  callStack : list (option PlayerRef);
  labelTable : gmap string Label;
  valueContainer : gmap string Value;
  players : list Player;
  commandFinished : gmap CmdRef bool;
  console : list string
}.

Definition set_sequences (x : gmap string Sequence) (e : Engine) : Engine :=
  mkEngine x (player e) (callStack e) (labelTable e) (valueContainer e)
           (players e) (commandFinished e) (console e).
Definition set_player (x : option PlayerRef) (e : Engine) : Engine :=
  mkEngine (sequences e) x (callStack e) (labelTable e) (valueContainer e)
           (players e) (commandFinished e) (console e).
Definition set_callStack (x : list (option PlayerRef)) (e : Engine) : Engine :=
  mkEngine (sequences e) (player e) x (labelTable e) (valueContainer e)
           (players e) (commandFinished e) (console e).
Definition set_labelTable (x : gmap string Label) (e : Engine) : Engine :=
  mkEngine (sequences e) (player e) (callStack e) x (valueContainer e)
           (players e) (commandFinished e) (console e).
Definition set_players (x : list Player) (e : Engine) : Engine :=
  mkEngine (sequences e) (player e) (callStack e) (labelTable e) (valueContainer e)
           x (commandFinished e) (console e).
Definition set_commandFinished (x : gmap CmdRef bool) (e : Engine) : Engine :=
  mkEngine (sequences e) (player e) (callStack e) (labelTable e) (valueContainer e)
           (players e) x (console e).
Definition set_console (x : list string) (e : Engine) : Engine :=
  mkEngine (sequences e) (player e) (callStack e) (labelTable e) (valueContainer e)
           (players e) (commandFinished e) x.

(** [new Engine()] *)
Definition Engine_new : Engine := mkEngine ∅ None [] ∅ ∅ [] ∅ [].

(** ** The command hierarchy

    A class is the record of its methods; each takes the receiver [this]
    and, as the engine handed to it, the whole engine state. *)
Record CommandClass := mkClass {
  isFinished : CmdRef -> Engine -> bool;
  isBreak : CmdRef -> Engine -> bool;
  init : CmdRef -> Engine -> Engine;
  onRegistered : CmdRef -> Engine -> Engine;
  start : CmdRef -> Engine -> Engine;
  update : CmdRef -> Engine -> Engine;
  finish : CmdRef -> Engine -> Engine;
  instanceofCommandHalt : bool;
  instanceofCommandLabel : option string
}.

Definition nothing (this : CmdRef) (e : Engine) : Engine := e.

(** [abstract class OneShotCommand]: [start] is left to the subclass. *)
Definition OneShotCommand (start : CmdRef -> Engine -> Engine) : CommandClass :=
  {| isFinished := fun _ _ => true;
     isBreak := fun _ _ => false;
     init := nothing;
     onRegistered := nothing;
     start := start;
     update := nothing;
     finish := nothing;
     instanceofCommandHalt := false;
     instanceofCommandLabel := None |}.

(** [ContinuousCommand.stopCommand()] *)
Definition stopCommand (this : CmdRef) (e : Engine) : Engine :=
  set_commandFinished (<[this := true]> (commandFinished e)) e.

(** [abstract class ContinuousCommand]: the field starts as [false]. *)
Definition ContinuousCommand (start update finish : CmdRef -> Engine -> Engine) : CommandClass :=
  {| isFinished := fun this e => default false (commandFinished e !! this);
     isBreak := fun _ _ => false;
     init := fun this e => set_commandFinished (<[this := false]> (commandFinished e)) e;
     onRegistered := nothing;
     start := start;
     update := update;
     finish := finish;
     instanceofCommandHalt := false;
     instanceofCommandLabel := None |}.

Definition CommandReady : CommandClass := OneShotCommand nothing.

Definition CommandHalt : CommandClass :=
  let c := ContinuousCommand nothing nothing nothing in
  mkClass (isFinished c) (isBreak c) (init c) (onRegistered c) (start c) (update c)
          (finish c) true None.

Definition CommandLabel (name : string) : CommandClass :=
  let c := OneShotCommand nothing in
  mkClass (isFinished c) (isBreak c) (init c) (onRegistered c) (start c) (update c)
          (finish c) false (Some name).

(** [Command.Log]: [start] writes the message to the console. *)
Definition Log (message : string) : CommandClass :=
  OneShotCommand (fun _ e => set_console (console e ++ [message]) e).

(** ** Label *)

Definition Label_fullname (scriptName labelName : string) : string :=
  scriptName +:+ "/" +:+ labelName.

Definition Label_isFullname (name : string) : bool :=
  (0 <? JsString.indexOf "/" name)%Z.

(** ** ValueContainer *)



(** ** Sequence *)

Definition Sequence_register (commands : list CmdRef) (s : Sequence) : Sequence :=
  mkSequence (seq_scriptName s) (Some (default [] (program s) ++ commands)).

(** [this.program[index]]; an index outside the array gives [undefined]. *)
Definition fetch (prog : list CmdRef) (index : Z) : option CmdRef :=
  if (index <? 0)%Z then None else prog !! Z.to_nat index.

(** ** Player *)

(** [reset(sequence, index)], also the body of the constructor. *)
Definition Player_reset (sequence : option string) (index : Z) : Player :=
  mkPlayer sequence NewCommandReady (index - 1).

Definition set_programCounter (pc : Z) (pl : Player) : Player :=
  mkPlayer (sequence pl) (currentCommand pl) pc.
Definition set_currentCommand (c : CurrentCommand) (pl : Player) : Player :=
  mkPlayer (sequence pl) c (programCounter pl).

(** The calls the player and the engine make on commands, as observed. *)
Inductive Method := MInit | MOnRegistered | MStart | MUpdate | MFinish.

Inductive Event := Call (m : Method) (target : CurrentCommand).

Definition World : Type := Engine * list Event.

(** [this.sequences[scriptName]] as a reference for a player. *)
Definition sequence_ref (scriptName : string) (e : Engine) : option string :=
  match sequences e !! scriptName with
  | Some _ => Some scriptName
  | None => None
  end.

(** The [Sequence] object a player refers to, and its [program] array. *)
Definition Player_sequence (pl : Player) (e : Engine) : option Sequence :=
  match sequence pl with
  | Some s => sequences e !! s
  | None => None
  end.

Definition Player_program (pl : Player) (e : Engine) : option (list CmdRef) :=
  match Player_sequence pl e with
  | Some s => program s
  | None => None
  end.

(** The array of the sequence registered under [scriptName] (empty when there
    is none). *)
Definition Engine_program (scriptName : string) (e : Engine) : list CmdRef :=
  match sequences e !! scriptName with
  | Some s => default [] (program s)
  | None => []
  end.

Definition write_player (this : PlayerRef) (pl : Player) (e : Engine) : Engine :=
  set_players (<[this := pl]> (players e)) e.

Section Methods.

(** The class of every command object. *)
Variable classOf : CmdRef -> CommandClass.

Definition cmd_isFinished (c : CurrentCommand) (e : Engine) : bool :=
  match c with
  | NewCommandReady => true
  | NewCommandHalt => false
  | Fetched r => isFinished (classOf r) r e
  end.

Definition cmd_isBreak (c : CurrentCommand) (e : Engine) : bool :=
  match c with
  | NewCommandReady => false
  | NewCommandHalt => false
  | Fetched r => isBreak (classOf r) r e
  end.

Definition cmd_isHalt (c : CurrentCommand) : bool :=
  match c with
  | NewCommandReady => false
  | NewCommandHalt => true
  | Fetched r => instanceofCommandHalt (classOf r)
  end.

Definition method_of (m : Method) (cls : CommandClass) : CmdRef -> Engine -> Engine :=
  match m with
  | MInit => init cls
  | MOnRegistered => onRegistered cls
  | MStart => start cls
  | MUpdate => update cls
  | MFinish => finish cls
  end.

(** What a method call on a command does to the engine; the methods of
    the two sentinels do nothing. *)
Definition effect (m : Method) (c : CurrentCommand) (e : Engine) : Engine :=
  match c with
  | Fetched r => method_of m (classOf r) r e
  | _ => e
  end.

(** A method call, appended to the trace of calls. *)
Definition call (m : Method) (c : CurrentCommand) (w : World) : World :=
  (effect m c (fst w), snd w ++ [Call m c]).

(** One evaluation of the [while] condition and, when it holds, of the
    loop body. [Again]: back to the condition. [Leave]: the loop is over
    (condition false, or [break]). [Return]: the [return] after the halt. *)
Inductive Control := Again | Leave | Return.

Definition Player_run_body (this : PlayerRef) (w : World) : Outcome (World * Control) :=
  let '(e, tr) := w in
  match players e !! this with
  | None => Thrown TypeError
  | Some pl =>
      if cmd_isFinished (currentCommand pl) e then
        let pl := set_programCounter (programCounter pl + 1) pl in
        match Player_program pl e with
        | None => Thrown TypeError
        | Some prog =>
            if (Z.of_nat (length prog) <=? programCounter pl)%Z then
              Returned ((write_player this (set_currentCommand NewCommandHalt pl) e, tr), Return)
            else
              match fetch prog (programCounter pl) with
              | None => Thrown TypeError
              | Some c =>
                  let w := (write_player this (set_currentCommand (Fetched c) pl) e, tr) in
                  let w := call MInit (Fetched c) w in
                  match players (fst w) !! this with
                  | None => Thrown TypeError
                  | Some pl1 =>
                      let w := call MStart (currentCommand pl1) w in
                      match players (fst w) !! this with
                      | None => Thrown TypeError
                      | Some pl2 =>
                          if cmd_isBreak (currentCommand pl2) (fst w)
                          then Returned (w, Leave)
                          else Returned (w, Again)
                      end
                  end
              end
        end
      else Returned (w, Leave)
  end.

Fixpoint Player_run_loop (fuel : nat) (this : PlayerRef) (w : World) : Outcome (World * Control) :=
  match fuel with
  | O => OutOfFuel
  | S fuel' =>
      match Player_run_body this w with
      | Returned (w', Again) => Player_run_loop fuel' this w'
      | r => r
      end
  end.

(** The statements after the loop. *)
Definition Player_run_rest (this : PlayerRef) (w : World) : Outcome World :=
  match players (fst w) !! this with
  | None => Thrown TypeError
  | Some pl =>
      if cmd_isFinished (currentCommand pl) (fst w) then Returned w
      else
        let w := call MUpdate (currentCommand pl) w in
        match players (fst w) !! this with
        | None => Thrown TypeError
        | Some pl1 =>
            if cmd_isFinished (currentCommand pl1) (fst w)
            then Returned (call MFinish (currentCommand pl1) w)
            else Returned w
        end
  end.

Definition Player_run (fuel : nat) (this : PlayerRef) (w : World) : Outcome World :=
  match Player_run_loop fuel this w with
  | Returned (w', Return) => Returned w'
  | Returned (w', _) => Player_run_rest this w'
  | Thrown x => Thrown x
  | OutOfFuel => OutOfFuel
  end.

Definition Player_isHalted (pl : Player) : bool := cmd_isHalt (currentCommand pl).

(** [this.sequence.scriptName] *)
Definition Player_scriptName (pl : Player) (e : Engine) : Outcome string :=
  match Player_sequence pl e with
  | Some s => Returned (seq_scriptName s)
  | None => Thrown TypeError
  end.

End Methods.

(** ** Engine *)

(** The default of the [scriptName] parameters. *)
Definition default_scriptName : string := "default".

(** [new Player(sequence, index)]: a new object in the store. *)
Definition new_Player (sequence : option string) (index : Z) (e : Engine) : PlayerRef * Engine :=
  (length (players e), set_players (players e ++ [Player_reset sequence index]) e).



(** [this.player], dereferenced; a member access on [undefined] throws. *)
Definition active_player (e : Engine) : Outcome Player :=
  match player e with
  | Some r =>
      match players e !! r with
      | Some pl => Returned pl
      | None => Thrown TypeError
      end
  | None => Thrown TypeError
  end.

Definition Engine_getLabel (labelName : string) (e : Engine) : Outcome (option Label) :=
  if negb (Label_isFullname labelName) then
    match active_player e with
    | Returned pl =>
        match Player_scriptName pl e with
        | Returned scriptName => Returned (labelTable e !! Label_fullname scriptName labelName)
        | Thrown x => Thrown x
        | OutOfFuel => OutOfFuel
        end
    | Thrown x => Thrown x
    | OutOfFuel => OutOfFuel
    end
  else Returned (labelTable e !! labelName).

Definition Engine_goto (index : Z) (scriptName : string) (e : Engine) : Outcome Engine :=
  match player e with
  | Some r => Returned (write_player r (Player_reset (sequence_ref scriptName e) index) e)
  | None => Thrown TypeError
  end.

Definition Engine_gosub (index : Z) (scriptName : string) (e : Engine) : Engine :=
  let e := set_callStack (callStack e ++ [player e]) e in
  let '(r, e) := new_Player (sequence_ref scriptName e) index e in
  set_player (Some r) e.

Section EngineMethods.

Variable classOf : CmdRef -> CommandClass.

(** The first [forEach] of [register]: every [CommandLabel] of the
    sequence is entered in the label table under its full name. *)
Fixpoint index_labels (scriptName : string) (prog : list CmdRef) (index : nat)
         (table : gmap string Label) : gmap string Label :=
  match prog with
  | [] => table
  | c :: rest =>
      index_labels scriptName rest (S index)
        match instanceofCommandLabel (classOf c) with
        | Some name => <[Label_fullname scriptName name := mkLabel scriptName name index]> table
        | None => table
        end
  end.

(** The second [forEach]: [onRegistered] on every element of the array.
    The array only ever grows at its end, so the elements visited are the
    ones it holds when the iteration starts. *)
Definition notify_registered (prog : list CmdRef) (w : World) : World :=
  fold_left (fun w c => call classOf MOnRegistered (Fetched c) w) prog w.

Definition Engine_register (commands : list CmdRef) (scriptName : string) (w : World) : World :=
  let '(e, tr) := w in
  let e :=
    match sequences e !! scriptName with
    | None => set_sequences (<[scriptName := mkSequence scriptName None]> (sequences e)) e
    | Some _ => e
    end in
  let e :=
    match player e with
    | None => let '(r, e') := new_Player (sequence_ref scriptName e) 0 e in set_player (Some r) e'
    | Some _ => e
    end in
  let e := set_sequences (alter (Sequence_register commands) scriptName (sequences e)) e in
  let prog := Engine_program scriptName e in
  let e := set_labelTable (index_labels scriptName prog 0 (labelTable e)) e in
  notify_registered prog (e, tr).

Definition Engine_run (fuel : nat) (w : World) : Outcome World :=
  match player (fst w) with
  | None => Thrown TypeError
  | Some r =>
      match Player_run classOf fuel r w with
      | Returned (e, tr) =>
          match active_player e with
          | Returned pl =>
              if Player_isHalted classOf pl && (0 <? length (callStack e))%nat
              then Returned (set_callStack (removelast (callStack e))
                               (set_player (default None (last (callStack e))) e), tr)
              else Returned (e, tr)
          | Thrown x => Thrown x
          | OutOfFuel => OutOfFuel
          end
      | Thrown x => Thrown x
      | OutOfFuel => OutOfFuel
      end
  end.

Definition Engine_isHalted (e : Engine) : Outcome bool :=
  match active_player e with
  | Returned pl => Returned (Player_isHalted classOf pl)
  | Thrown x => Thrown x
  | OutOfFuel => OutOfFuel
  end.

(** [n] consecutive calls of [run]. *)
Fixpoint Engine_runs (fuel : nat) (n : nat) (w : World) : Outcome World :=
  match n with
  | O => Returned w
  | S n' =>
      match Engine_run fuel w with
      | Returned w' => Engine_runs fuel n' w'
      | r => r
      end
  end.

End EngineMethods.

(** * Scenarios and stated properties

    Concrete programs (among them the one of the repository's entry point)
    and the propositions the theorems below are about. *)

(** ** Parser scenarios *)

(** A factory table with the one command of the repository. *)
Definition demo_table : gmap string (list Parser.Arg -> CommandClass) :=
  {[ "Log" := fun args =>
                match args with
                | Parser.ArgString message :: _ => Log message
                | _ => Log "undefined"
                end ]}.

Definition nl : string := String Parser.newline EmptyString.

(** [k] empty lines. *)
Fixpoint blank_lines (k : nat) : string :=
  match k with
  | O => EmptyString
  | S k' => String Parser.newline (blank_lines k')
  end.

(** The 1-based line of the character at position [pos]. *)
Fixpoint line_of (s : string) (pos : nat) : nat :=
  match pos, s with
  | S pos', String c s' => (if Ascii.eqb c Parser.newline then 1 else 0) + line_of s' pos'
  | _, _ => 1
  end.

Fixpoint no_newline (s : string) : bool :=
  match s with
  | String c s' => negb (Ascii.eqb c Parser.newline) && no_newline s'
  | EmptyString => true
  end.

(** A script whose last line is a comment that no newline ends. *)
Definition comment_at_end : string := "// the end".

(** A log message that runs over two lines, then an unknown command on the
    third line (it starts at position 20). *)
Definition two_line_message : string :=
  "Log(" +:+ String Parser.quote "first" +:+ nl +:+ "second" +:+ String Parser.quote ")"
    +:+ nl +:+ "Zzz()".

(** A script whose last character is a newline. *)
Definition ends_with_newline (s : string) : Prop :=
  s <> EmptyString /\ JsString.charAt s (String.length s - 1) = Some Parser.newline.

(** The first thing in the script that is not a separator is a letter or
    the slash of a comment. *)
Definition opens_with_call_or_comment (script : string) : Prop :=
  exists q c,
    (forall i, i < q -> JsString.member Parser.separators (JsString.charAt script i) = true)
    /\ JsString.charAt script q = Some c
    /\ (Parser.is_letter c = true \/ c = "/"%char).

(** The states of the parser with the stacks of return states they occur
    with. *)
Definition parser_shape {Command : Type} (m : @Parser.Locals Command) : Prop :=
  match Parser.state m with
  | Some Parser.St_default => Parser.stateStack m = []
  | Some Parser.St_whitespace => Parser.stateStack m = [Parser.St_default]
  | Some Parser.St_singlelinecomment => Parser.stateStack m = [Parser.St_default]
  | Some Parser.St_function => Parser.stateStack m = [Parser.St_default]
  | Some Parser.St_argument => Parser.stateStack m = [Parser.St_function; Parser.St_default]
  | Some Parser.St_argument_string =>
      Parser.stateStack m = [Parser.St_argument; Parser.St_function; Parser.St_default]
  | Some Parser.St_argument_number =>
      Parser.stateStack m = [Parser.St_argument; Parser.St_function; Parser.St_default]
  | None => False
  end.

(** What holds of the parser's variables at the top of its loop. *)
Definition parser_invariant {Command : Type} (script : string) (m : @Parser.Locals Command) : Prop :=
  parser_shape m
  /\ (Parser.state m = Some Parser.St_whitespace ->
      JsString.member Parser.separators (JsString.charAt script (Parser.p m)) = true)
  /\ (Parser.state m = Some Parser.St_argument_number ->
      JsString.member Parser.numeric (JsString.charAt script (Parser.p m)) = true)
  /\ (opens_with_call_or_comment script
      \/ ((Parser.state m = Some Parser.St_default \/ Parser.state m = Some Parser.St_whitespace)
          /\ forall i, i < Parser.p m ->
               JsString.member Parser.separators (JsString.charAt script i) = true)).

(** A bound on the passes of the loop that remain: what is left of the text,
    and how far the state is from consuming some of it. *)
Definition parser_rank {Command : Type} (script : string) (m : @Parser.Locals Command) : nat :=
  match Parser.state m with
  | Some Parser.St_default => 3
  | Some Parser.St_function =>
      if bool_decide (JsString.charAt script (fst (Parser.skip_whitespace script (Parser.p m) 0))
                      = Some ")"%char)
      then 1 else 2
  | Some Parser.St_argument => 3
  | Some Parser.St_argument_string => 2
  | Some Parser.St_argument_number => 2
  | _ => 0
  end.

Definition parser_potential {Command : Type} (script : string) (m : @Parser.Locals Command) : nat :=
  4 * (String.length script - Parser.p m) + parser_rank script m.

(** ** Engine scenarios *)

(** Does [name] contain the separator at all? *)
Definition contains_slash (name : string) : bool := (0 <=? JsString.indexOf "/" name)%Z.

(** [getLabel] looks [name] up as it stands. *)
Definition used_as_is (name : string) (e : Engine) : Prop :=
  Engine_getLabel name e = Returned (labelTable e !! name).

(** Two scripts: "default" with a log command, and one registered under the
    empty name that holds the label "x" (its full name is "/x"). *)
Definition label_classes (c : CmdRef) : CommandClass :=
  match c with
  | 0 => Log "Hello"
  | 1 => CommandLabel "x"
  | 2 => CommandLabel "top"
  | _ => CommandReady
  end.

Definition label_world : World :=
  Engine_register label_classes [1] EmptyString
    (Engine_register label_classes [0; 2] default_scriptName (Engine_new, [])).

(** The program of the repository's entry point: [Log("Hello")], then a
    [CommandHalt]. *)
Definition demo_classes (c : CmdRef) : CommandClass :=
  match c with
  | 0 => Log "Hello"
  | 1 => CommandHalt
  | _ => CommandReady
  end.

Definition demo_world : World :=
  Engine_register demo_classes [0; 1] default_scriptName (Engine_new, []).




(** The calls [init] and [start], which activate a command. *)
Definition activation (ev : Event) : bool :=
  match ev with
  | Call MInit _ | Call MStart _ => true
  | _ => false
  end.

(** The current command of the player [this]. *)
Definition current (this : PlayerRef) (e : Engine) : option CurrentCommand :=
  currentCommand <$> players e !! this.


(** A method that leaves alone what the player and the engine steer by: the
    players, the active player, the call stack and the sequences. *)
Definition keeps_control (f : CmdRef -> Engine -> Engine) : Prop :=
  forall r e, players (f r e) = players e /\ sequences (f r e) = sequences e
              /\ player (f r e) = player e /\ callStack (f r e) = callStack e.

(** A class none of whose tick methods touches the control state. *)
Definition benign (cls : CommandClass) : Prop :=
  keeps_control (init cls) /\ keeps_control (start cls)
  /\ keeps_control (update cls) /\ keeps_control (finish cls).

(** The engine rests on a [CommandHalt] that has not been stopped, with
    nothing to return to. *)
Definition halted_for_good (classOf : CmdRef -> CommandClass) (e : Engine) (halt : CurrentCommand) : Prop :=
  callStack e = []
  /\ (exists pl, active_player e = Returned pl /\ currentCommand pl = halt)
  /\ (halt = NewCommandHalt
      \/ exists h, halt = Fetched h /\ classOf h = CommandHalt
                   /\ cmd_isFinished classOf halt e = false).

(** How a tick ends after the advancing loop, which left the state [e1]
    with the control [ctl]: with no further call, with [update] alone, or
    with [update] and then [finish]. *)
Inductive tick_tail (classOf : CmdRef -> CommandClass) (this : PlayerRef) (e1 : Engine)
  : Control -> list Event -> Engine -> Prop :=
| tail_return : tick_tail classOf this e1 Return [] e1
| tail_finished c :
    current this e1 = Some c ->
    cmd_isFinished classOf c e1 = true ->
    tick_tail classOf this e1 Leave [] e1
| tail_update c c1 :
    current this e1 = Some c ->
    cmd_isFinished classOf c e1 = false ->
    current this (effect classOf MUpdate c e1) = Some c1 ->
    cmd_isFinished classOf c1 (effect classOf MUpdate c e1) = false ->
    tick_tail classOf this e1 Leave [Call MUpdate c] (effect classOf MUpdate c e1)
| tail_finish c c1 :
    current this e1 = Some c ->
    cmd_isFinished classOf c e1 = false ->
    current this (effect classOf MUpdate c e1) = Some c1 ->
    cmd_isFinished classOf c1 (effect classOf MUpdate c e1) = true ->
    tick_tail classOf this e1 Leave [Call MUpdate c; Call MFinish c1]
              (effect classOf MFinish c1 (effect classOf MUpdate c e1)).

(** The value a call returned (with a default for the other outcomes), and
    the calls it recorded. *)
Definition returned {A : Type} (d : A) (o : Outcome A) : A :=
  match o with
  | Returned a => a
  | _ => d
  end.

Definition calls_of (o : Outcome World) : option (list Event) :=
  match o with
  | Returned w => Some (snd w)
  | _ => None
  end.


(** A one-shot command whose [start] calls [engine.gosub]. *)
Definition GosubCommand (index : Z) (scriptName : string) : CommandClass :=
  OneShotCommand (fun _ e => Engine_gosub index scriptName e).

(** The same command with [isBreak] overridden to [true]. *)
Definition BreakingGosubCommand (index : Z) (scriptName : string) : CommandClass :=
  let c := GosubCommand index scriptName in
  mkClass (isFinished c) (fun _ _ => true) (init c) (onRegistered c) (start c) (update c)
          (finish c) false None.

(** Script "default": a gosub into "sub", then a log command. Script "sub":
    one log command. *)
Definition gosub_classes (c : CmdRef) : CommandClass :=
  match c with
  | 0 => GosubCommand 0 "sub"
  | 1 => Log "after"
  | 2 => Log "in sub"
  | _ => CommandReady
  end.

Definition breaking_classes (c : CmdRef) : CommandClass :=
  match c with
  | 0 => BreakingGosubCommand 0 "sub"
  | c => gosub_classes c
  end.

Definition gosub_world (classOf : CmdRef -> CommandClass) : World :=
  Engine_register classOf [2] "sub"
    (Engine_register classOf [0; 1] default_scriptName (Engine_new, [])).

(** The world [n] ticks after [w], with the calls of those ticks only. *)
Definition after_ticks (classOf : CmdRef -> CommandClass) (w : World) (n : nat) : World :=
  returned (Engine_new, []) (Engine_runs classOf 8 n (fst w, [])).

(** Whenever a [run] from [w] returns, its first calls are [init] and
    [start] on the command [c]. *)
Definition resumes_with (classOf : CmdRef -> CommandClass) (w : World) (c : CmdRef) : Prop :=
  forall fuel w', Engine_run classOf fuel w = Returned w' ->
    exists more, snd w' = snd w ++ [Call MInit (Fetched c); Call MStart (Fetched c)] ++ more.

(** The breaking-gosub program after its first tick, and the outcome of
    the tick of the subroutine's player that follows. *)
Definition breaking_suspended : World :=
  after_ticks breaking_classes (gosub_world breaking_classes) 1.

Definition breaking_sub_tick : World :=
  returned (Engine_new, []) (Player_run breaking_classes 8 1 (fst breaking_suspended, [])).

(** ** Further stated properties *)

(** A one-shot command whose [start] leaves the control state alone. *)
Definition plain_one_shot (cls : CommandClass) : Prop :=
  exists st, cls = OneShotCommand st /\ keeps_control st.

(** [init] and [start] on each command of [prog], in order. *)
Definition activations (prog : list CmdRef) : list Event :=
  flat_map (fun c => [Call MInit (Fetched c); Call MStart (Fetched c)]) prog.

(** The current command of a player is the command at its program counter
    (or one of the two sentinels). *)
Definition at_counter (e : Engine) (pl : Player) : Prop :=
  match currentCommand pl with
  | Fetched c => exists prog, Player_program pl e = Some prog
                              /\ fetch prog (programCounter pl) = Some c
  | _ => True
  end.

(** What a tick of the player [this] may change between [e] and [e']: the
    player moves forward on the sequence it is on and comes to rest on a
    sentinel or on the command at its program counter; the other players,
    the sequences, the active player and the call stack stay. *)
Definition advanced (this : PlayerRef) (e e' : Engine) : Prop :=
  sequences e' = sequences e /\ player e' = player e /\ callStack e' = callStack e
  /\ exists pl pl', players e !! this = Some pl
       /\ players e' = <[this := pl']> (players e)
       /\ sequence pl' = sequence pl
       /\ (programCounter pl <= programCounter pl')%Z
       /\ at_counter e' pl'.

(** The engine after the [start] methods of the commands [rest] have run
    one after the other for the player [this], which is on the sequence
    [sq] with the first of them at the program counter [pc]. *)
Fixpoint start_all (classOf : CmdRef -> CommandClass) (this : PlayerRef) (sq : option string)
         (pc : Z) (rest : list CmdRef) (e : Engine) : Engine :=
  match rest with
  | [] => e
  | c :: rest' =>
      start_all classOf this sq (pc + 1) rest'
        (start (classOf c) c (write_player this (mkPlayer sq (Fetched c) pc) e))
  end.

(** The commands a player has still to activate. *)
Definition remaining (pl : Player) (prog : list CmdRef) : list CmdRef :=
  drop (Z.to_nat (programCounter pl + 1)) prog.

(** A script of two log commands. *)
Definition greeting (c : CmdRef) : string :=
  match c with
  | 0 => "Hello"
  | _ => "World"
  end.

Definition greeting_classes (c : CmdRef) : CommandClass := Log (greeting c).

Definition greeting_world : World :=
  Engine_register greeting_classes [0; 1] default_scriptName (Engine_new, []).

(** [onRegistered] of every command leaves alone what [register] has set
    up and what the players steer by: the sequences, the label table, the
    players, the active player, the call stack and the finished flags. *)
Definition quiet_registration (classOf : CmdRef -> CommandClass) : Prop :=
  forall c e,
    sequences (onRegistered (classOf c) c e) = sequences e
    /\ labelTable (onRegistered (classOf c) c e) = labelTable e
    /\ players (onRegistered (classOf c) c e) = players e
    /\ player (onRegistered (classOf c) c e) = player e
    /\ callStack (onRegistered (classOf c) c e) = callStack e
    /\ commandFinished (onRegistered (classOf c) c e) = commandFinished e.


(** ** Scripts laid out call by call

    A script as a list of calls, each with the separators written before
    its name, before each of its arguments and before its closing
    parenthesis. *)

Definition is_separator (c : ascii) : bool :=
  JsString.member Parser.separators (Some c).

Definition is_numeric (c : ascii) : bool :=
  JsString.member Parser.numeric (Some c).

Fixpoint all_chars (f : ascii -> bool) (s : string) : bool :=
  match s with
  | String c s' => f c && all_chars f s'
  | EmptyString => true
  end.

Definition starts_with (f : ascii -> bool) (s : string) : bool :=
  match s with
  | String c _ => f c
  | EmptyString => false
  end.

(** The number of newline characters in [s]. *)
Fixpoint newlines (s : string) : nat :=
  match s with
  | String c s' => (if Ascii.eqb c Parser.newline then 1 else 0) + newlines s'
  | EmptyString => 0
  end.

Record Invocation := mkInvocation {
  inv_lead : string;
  inv_name : string;
  inv_args : list (string * Parser.Arg);
  inv_close : string
}.

Definition render_arg (a : Parser.Arg) : string :=
  match a with
  | Parser.ArgString s => String Parser.quote (s +:+ String Parser.quote EmptyString)
  | Parser.ArgNumber literal => literal
  end.

Fixpoint render_args (args : list (string * Parser.Arg)) : string :=
  match args with
  | [] => EmptyString
  | (sep, a) :: rest => sep +:+ render_arg a +:+ render_args rest
  end.

(** The call up to and including its last argument. *)
Definition render_open (c : Invocation) : string :=
  inv_lead c +:+ inv_name c +:+ "(" +:+ render_args (inv_args c).

Definition render_invocation (c : Invocation) : string :=
  render_open c +:+ inv_close c +:+ ")".

Fixpoint render_script (calls : list Invocation) : string :=
  match calls with
  | [] => EmptyString
  | c :: rest => render_invocation c +:+ render_script rest
  end.

(** A string argument holds no quote; a numeric argument is a non-empty
    run of the characters of a number. *)
Definition wf_arg (a : Parser.Arg) : bool :=
  match a with
  | Parser.ArgString s => all_chars (fun c => negb (Ascii.eqb c Parser.quote)) s
  | Parser.ArgNumber literal => starts_with is_numeric literal && all_chars is_numeric literal
  end.

(** Arguments are preceded by separators only, and a numeric argument is
    not followed directly by another one. *)
Fixpoint wf_args (args : list (string * Parser.Arg)) : bool :=
  match args with
  | [] => true
  | (sep, a) :: rest =>
      all_chars is_separator sep && wf_arg a
      && match a with
         | Parser.ArgNumber _ => negb (starts_with is_numeric (render_args rest))
         | Parser.ArgString _ => true
         end
      && wf_args rest
  end.

(** A name starts with a letter, holds no opening parenthesis and has no
    white space at its end. *)
Definition wf_name (name : string) : bool :=
  starts_with Parser.is_letter name
  && all_chars (fun c => negb (Ascii.eqb c "(")) name
  && String.eqb (JsString.trim name) name.

Definition well_formed (c : Invocation) : bool :=
  all_chars is_separator (inv_lead c) && wf_name (inv_name c)
  && wf_args (inv_args c) && all_chars is_separator (inv_close c).

(** The arguments as the factory receives them. *)
Definition arguments (c : Invocation) : list Parser.Arg := map snd (inv_args c).

(** The command the table builds for a call. *)
Definition built {Command : Type} (table : gmap string (list Parser.Arg -> Command))
           (c : Invocation) (cmd : Command) : Prop :=
  exists factory, table !! inv_name c = Some factory /\ cmd = factory (arguments c).

(** The newlines among the separators of a call, and of its part before
    the closing parenthesis's separators. *)
Fixpoint args_newlines (args : list (string * Parser.Arg)) : nat :=
  match args with
  | [] => 0
  | (sep, _) :: rest => newlines sep + args_newlines rest
  end.

Definition open_newlines (c : Invocation) : nat :=
  newlines (inv_lead c) + args_newlines (inv_args c).

Definition separator_newlines (c : Invocation) : nat :=
  open_newlines c + newlines (inv_close c).

Definition script_newlines (calls : list Invocation) : nat :=
  foldr (fun c n => separator_newlines c + n) 0 calls.

(** The passes of the parser's loop over a run of separators between
    calls, over a call up to its last argument, and over a whole call. *)
Definition separator_passes (sep : string) : nat :=
  match sep with
  | EmptyString => 0
  | _ => 2
  end.

Definition open_passes (c : Invocation) : nat :=
  separator_passes (inv_lead c) + 2 + 2 * length (inv_args c).

Definition invocation_passes (c : Invocation) : nat := open_passes c + 2.

Definition script_passes (calls : list Invocation) : nat :=
  foldr (fun c n => invocation_passes c + n) 0 calls.

(** A script of two calls over three lines. *)
Definition sample_calls : list Invocation :=
  [ mkInvocation EmptyString "Log"
      [(EmptyString, Parser.ArgString "Hello"); (", ", Parser.ArgNumber "-1.5")] " ";
    mkInvocation (";" +:+ nl +:+ nl) "Log" [(nl, Parser.ArgString "again")] EmptyString ].

Definition unknown_call : Invocation :=
  mkInvocation nl "Zzz" [(EmptyString, Parser.ArgNumber "1")] nl.

(** The separators the script opens with, when [lead] and a name follow
    the calls. *)
Definition first_lead (calls : list Invocation) (lead : string) : string :=
  match calls with
  | [] => lead
  | c :: _ => inv_lead c
  end.

(** * Properties *)

(** ** Parser *)

Module ParserFacts.

Import JsString Parser.

Lemma charAt_no_newline s : no_newline s = true -> forall i, charAt s i <> Some newline.
Proof.
  induction s as [|c s IH]; intros H i; simpl in H.
  - destruct i; discriminate.
  - apply andb_prop in H as [Hc Hs]. destruct i as [|i]; simpl.
    + intros [= ->]. rewrite Ascii.eqb_refl in Hc. discriminate.
    + apply IH, Hs.
Qed.

Lemma skip_comment_never_ends script :
  (forall i, charAt script i <> Some newline) ->
  forall fuel p, skip_comment fuel script p = None.
Proof.
  intros H fuel. induction fuel as [|fuel IH]; intros p; simpl; [reflexivity|].
  destruct (charAt script p) as [c|] eqn:E; [|apply IH].
  destruct (Ascii.eqb_spec c newline) as [->|_]; [|apply IH].
  exfalso. exact (H p E).
Qed.

(** A script that opens with a comment and holds no newline never leaves
    the comment state, whatever the fuel. *)
Lemma comment_without_newline_spins {Command : Type}
      (table : gmap string (list Arg -> Command)) (text filename : string) :
  no_newline text = true ->
  forall fuel, parse table ("//" +:+ text) filename fuel = OutOfFuel.
Proof.
  intros H fuel.
  assert (Hn : forall i, charAt ("//" +:+ text) i <> Some newline).
  { apply charAt_no_newline. simpl. exact H. }
  destruct fuel as [|[|fuel]]; try reflexivity.
  unfold parse. simpl. unfold step. simpl.
  rewrite (skip_comment_never_ends _ Hn). reflexivity.
Qed.

(** C3. [Parser.parse] does not terminate on every input: on a script that
    ends inside a single-line comment (no newline after it) the comment
    loop runs past the end of the text, so that with any amount of fuel the
    call neither returns a command list nor throws. *)
Theorem parse_comment_at_end_never_returns {Command : Type}
        (table : gmap string (list Arg -> Command)) (filename : string) (fuel : nat) :
  parse table comment_at_end filename fuel = OutOfFuel.
Proof. apply (comment_without_newline_spins table " the end" filename). reflexivity. Qed.

(** The same script with a newline after the comment parses to nothing. *)
Example parse_comment_with_newline :
  parse demo_table (comment_at_end +:+ nl) "demo.txt" 32 = Returned [].
Proof. reflexivity. Qed.

(** The unknown call alone on the first line is reported there. *)
Example parse_unknown_on_first_line filename :
  parse demo_table "Zzz()" filename 16
  = Thrown (Error (unsupported_message filename 1 "Zzz")).
Proof. reflexivity. Qed.

Lemma blank_lines_length k rest :
  String.length (blank_lines k +:+ rest) = k + String.length rest.
Proof. induction k as [|k IH]; simpl; [done|]. by rewrite IH. Qed.

Lemma blank_lines_skipped k rest p line :
  skip_whitespace_go (blank_lines k +:+ rest) p line
  = skip_whitespace_go rest (p + k) (line + k).
Proof.
  revert p line. induction k as [|k IH]; intros p line; simpl.
  - by rewrite !Nat.add_0_r.
  - rewrite IH. f_equal; lia.
Qed.

Lemma parse_loop_S {Command : Type} (table : gmap string (list Arg -> Command))
      script filename fuel m :
  loop table script filename (S fuel) m
  = if (p m <? String.length script)%nat then
      match step table script filename fuel m with
      | Returned m' => loop table script filename fuel m'
      | Thrown e => Thrown e
      | OutOfFuel => OutOfFuel
      end
    else Returned (commands m).
Proof. reflexivity. Qed.

(** From the default state at the start of the call [Zzz()], which stands at
    position [k] on line [line], the parser reports the unknown command on
    that line. *)
Lemma unknown_call_reported {Command : Type}
      (table : gmap string (list Arg -> Command)) (filename : string)
      (k line fuel : nat) (prefix : string) :
  String.length prefix = k ->
  table !! "Zzz" = None ->
  loop table (prefix +:+ "Zzz()") filename (4 + fuel)
       (mkLocals [] None k (Some St_default) [] line)
  = Thrown (Error (unsupported_message filename line "Zzz")).
Proof.
  intros Hk Hz.
  set (s := prefix +:+ "Zzz()").
  assert (Hlen : String.length s = k + 5).
  { subst s k. clear. induction prefix as [|c q IH]; simpl; [done|]. by rewrite IH. }
  assert (Hdrop : forall i, drop (k + i) s = drop i "Zzz()").
  { intros i. subst s k. clear. induction prefix as [|c q IH]; simpl; [done|]. exact IH. }
  assert (Hat : forall i, charAt s (k + i) = charAt "Zzz()" i).
  { intros i. subst s k. clear. induction prefix as [|c q IH]; simpl; [done|]. exact IH. }
  assert (Hsub : forall n, String.substring k n s = String.substring 0 n "Zzz()").
  { intros n. subst s k. clear. induction prefix as [|c q IH]; simpl; [done|]. exact IH. }
  assert (Hc0 : charAt s k = Some "Z"%char) by (rewrite <- (Nat.add_0_r k) at 1; apply Hat).
  assert (Hc1 : charAt s (S k) = Some "z"%char)
    by (replace (S k) with (k + 1) by lia; apply Hat).
  assert (Hc4 : charAt s (k + 4) = Some ")"%char) by apply Hat.
  assert (Hskip0 : forall l, skip_whitespace s k l = (k, l)).
  { intros l. unfold skip_whitespace. rewrite <- (Nat.add_0_r k) at 1. by rewrite Hdrop. }
  assert (Hskip4 : forall l, skip_whitespace s (k + 4) l = (k + 4, l)).
  { intros l. unfold skip_whitespace. by rewrite Hdrop. }
  assert (Hidx : indexOfFrom "(" s k = (Z.of_nat k + 3)%Z).
  { unfold indexOfFrom. rewrite <- (Nat.add_0_r k) at 1. rewrite Hdrop. simpl. lia. }
  assert (Htok : trim (substr s k (Z.of_nat k + 3 - Z.of_nat k)) = "Zzz").
  { replace (Z.of_nat k + 3 - Z.of_nat k)%Z with 3%Z by lia.
    unfold substr. simpl. by rewrite Hsub. }
  clearbody s.
  assert (Hlt0 : (k <? k + 5)%nat = true) by (apply Nat.ltb_lt; lia).
  assert (Hlt4 : (k + 4 <? k + 5)%nat = true) by (apply Nat.ltb_lt; lia).
  (* default: a letter opens a call *)
  assert (S1 : forall f, step table s filename f (mkLocals [] None k (Some St_default) [] line)
               = Returned (mkLocals [] None k (Some St_function) [St_default] line)).
  { intros f. unfold step. cbn [state p]. rewrite Hc0, Hc1. reflexivity. }
  (* function, first visit: the name up to the parenthesis *)
  assert (S2 : forall f, step table s filename f
                 (mkLocals [] None k (Some St_function) [St_default] line)
               = Returned (mkLocals [] (Some [ArgString "Zzz"]) (k + 4) (Some St_argument)
                                    [St_function; St_default] line)).
  { intros f. unfold step. cbn [state p Parser.line]. rewrite Hskip0.
    cbn [set_pos p commands state stateStack currentCommand Parser.line].
    rewrite Hc0. simpl bool_decide. cbv iota. rewrite Hidx, Htok.
    unfold push_to, set_state. cbn [commands currentCommand p state stateStack Parser.line].
    do 2 f_equal. lia. }
  (* argument: the closing parenthesis *)
  assert (S3 : forall f, step table s filename f
                 (mkLocals [] (Some [ArgString "Zzz"]) (k + 4) (Some St_argument)
                           [St_function; St_default] line)
               = Returned (mkLocals [] (Some [ArgString "Zzz"]) (k + 4) (Some St_function)
                                    [St_default] line)).
  { intros f. unfold step. cbn [state p Parser.line]. rewrite Hskip4.
    cbn [set_pos p commands state stateStack currentCommand Parser.line].
    rewrite Hc4. reflexivity. }
  (* function, second visit: the name is looked up *)
  assert (S4 : forall f, step table s filename f
                 (mkLocals [] (Some [ArgString "Zzz"]) (k + 4) (Some St_function)
                           [St_default] line)
               = Thrown (Error (unsupported_message filename line "Zzz"))).
  { intros f. unfold step. cbn [state p Parser.line]. rewrite Hskip4.
    cbn [set_pos p commands state stateStack currentCommand Parser.line].
    rewrite Hc4. simpl bool_decide. cbv iota. cbn [head propertyKey]. by rewrite Hz. }
  change (4 + fuel) with (S (S (S (S fuel)))).
  rewrite parse_loop_S. cbn [p]. rewrite Hlen, Hlt0, S1.
  rewrite parse_loop_S. cbn [p]. rewrite Hlen, Hlt0, S2.
  rewrite parse_loop_S. cbn [p]. rewrite Hlen, Hlt4, S3.
  rewrite parse_loop_S. cbn [p]. rewrite Hlen, Hlt4, S4. reflexivity.
Qed.

(** An unknown call that stands alone after [k] empty lines is reported on
    line [k + 1], whatever else the table holds. *)
Lemma parse_unknown_after_blank_lines {Command : Type}
      (table : gmap string (list Arg -> Command)) (filename : string) (k : nat) :
  table !! "Zzz" = None ->
  line_of (blank_lines k +:+ "Zzz()") k = S k
  /\ parse table (blank_lines k +:+ "Zzz()") filename 8
     = Thrown (Error (unsupported_message filename (S k) "Zzz")).
Proof.
  intros Hz. split.
  { induction k as [|k IH]; simpl; [done|]. by rewrite IH. }
  assert (Hl : String.length (blank_lines k) = k).
  { induction k as [|k IH]; simpl; [done|]. by rewrite IH. }
  destruct k as [|k].
  { exact (unknown_call_reported table filename 0 1 4 EmptyString eq_refl Hz). }
  unfold parse.
  assert (S1 : forall f, step table (blank_lines (S k) +:+ "Zzz()") filename f initial
               = Returned (mkLocals [] None 0 (Some St_whitespace) [St_default] 1))
    by reflexivity.
  assert (S2 : forall f, step table (blank_lines (S k) +:+ "Zzz()") filename f
                 (mkLocals [] None 0 (Some St_whitespace) [St_default] 1)
               = Returned (mkLocals [] None (S k) (Some St_default) [] (S (S k)))).
  { intros f. unfold step. cbn [state p Parser.line]. unfold skip_whitespace.
    cbn [drop]. rewrite blank_lines_skipped. simpl skip_whitespace_go.
    unfold pop_state, set_pos, set_state.
    cbn [commands currentCommand p state stateStack Parser.line].
    do 2 f_equal; lia. }
  rewrite parse_loop_S. cbn [p initial]. rewrite blank_lines_length. simpl Nat.ltb. cbv iota.
  rewrite S1.
  rewrite parse_loop_S. cbn [p]. rewrite blank_lines_length. simpl Nat.ltb. cbv iota.
  rewrite S2.
  exact (unknown_call_reported table filename (S k) (S (S k)) 2 (blank_lines (S k)) Hl Hz).
Qed.

(** C7. The line cited for an unsupported command is the parser's running
    counter, which misses the newline inside an earlier string literal: in
    [two_line_message] the unknown call [Zzz()] stands on line 3 and the
    error cites line 2. *)
Theorem unsupported_command_after_two_line_string filename :
  substr two_line_message 20 5 = "Zzz()"
  /\ line_of two_line_message 20 = 3
  /\ parse demo_table two_line_message filename 32
     = Thrown (Error (unsupported_message filename 2 "Zzz")).
Proof. repeat split; reflexivity. Qed.

(** ** Termination of the parser on scripts that end with a newline *)

Lemma drop_cons s p c rest :
  drop p s = String c rest -> charAt s p = Some c /\ drop (S p) s = rest.
Proof.
  revert p. induction s as [|d s IH]; intros [|p] H; simpl in *; try discriminate.
  - by injection H as -> ->.
  - by apply IH.
Qed.

Lemma drop_nil s p : drop p s = EmptyString -> charAt s p = None.
Proof.
  revert p. induction s as [|d s IH]; intros [|p] H; simpl in *; try done. by apply IH.
Qed.

Lemma charAt_lt s p c : charAt s p = Some c -> p < String.length s.
Proof.
  revert p. induction s as [|d s IH]; intros [|p] H; simpl in *; try discriminate; try lia.
  apply IH in H. lia.
Qed.

Lemma charAt_in_range s p : p < String.length s -> charAt s p <> None.
Proof.
  revert p. induction s as [|d s IH]; intros [|p] H; simpl in *; try done; try lia.
  apply IH. lia.
Qed.

Lemma charAt_ge s p : String.length s <= p -> charAt s p = None.
Proof.
  revert p. induction s as [|d s IH]; intros [|p] H; simpl in *; try done; try lia.
  apply IH. lia.
Qed.

(** Where [skip_whitespace] stops: not before [p], on something that is not
    a separator, having passed separators only. *)
Lemma skip_whitespace_go_spec s : forall rest p line p' line',
  drop p s = rest ->
  skip_whitespace_go rest p line = (p', line') ->
  p <= p'
  /\ member separators (charAt s p') = false
  /\ (forall i, p <= i < p' -> member separators (charAt s i) = true).
Proof.
  intros rest. induction rest as [|c rest IH]; intros p line p' line' Hd H;
    cbn [skip_whitespace_go] in H.
  - injection H as <- <-. apply drop_nil in Hd. rewrite Hd.
    split; [lia|]. split; [done|]. intros i Hi. lia.
  - destruct (drop_cons _ _ _ _ Hd) as [Hc Hd'].
    destruct (member separators (Some c)) eqn:Hm.
    + destruct (IH _ _ _ _ Hd' H) as (H1 & H2 & H3). split; [lia|]. split; [done|].
      intros i Hi. destruct (decide (i = p)) as [->|Hne]; [by rewrite Hc|].
      apply H3. lia.
    + injection H as <- <-. rewrite Hc.
      split; [lia|]. split; [done|]. intros i Hi. lia.
Qed.

Lemma skip_whitespace_spec s p line :
  let p' := fst (skip_whitespace s p line) in
  p <= p'
  /\ member separators (charAt s p') = false
  /\ (forall i, p <= i < p' -> member separators (charAt s i) = true)
  /\ (member separators (charAt s p) = true -> p < p').
Proof.
  intros p'. unfold skip_whitespace in p'.
  destruct (skip_whitespace_go (drop p s) p line) as [q l] eqn:E.
  destruct (skip_whitespace_go_spec s _ _ _ _ _ eq_refl E) as (H1 & H2 & H3).
  subst p'. simpl. repeat split; try done.
  intros Hsep. destruct (decide (p = q)) as [->|Hne]; [congruence|lia].
Qed.

(** The position where [skip_whitespace] stops does not depend on the line
    count it is given. *)
Lemma skip_whitespace_go_pos rest : forall p l1 l2,
  fst (skip_whitespace_go rest p l1) = fst (skip_whitespace_go rest p l2).
Proof.
  induction rest as [|c rest IH]; intros p l1 l2; cbn [skip_whitespace_go]; [done|].
  destruct (member separators (Some c)); [apply IH|done].
Qed.

Lemma skip_whitespace_pos s p l1 l2 :
  fst (skip_whitespace s p l1) = fst (skip_whitespace s p l2).
Proof. apply skip_whitespace_go_pos. Qed.

(** From a position before which, and from which up to [q], there are only
    separators, [skip_whitespace] stops at [q] when [q] holds none. *)
Lemma skip_whitespace_stops_at s p q line :
  p <= q ->
  (forall i, p <= i < q -> member separators (charAt s i) = true) ->
  member separators (charAt s q) = false ->
  fst (skip_whitespace s p line) = q.
Proof.
  intros Hpq Hsep Hq.
  destruct (skip_whitespace_spec s p line) as (H1 & H2 & H3 & _).
  set (p' := fst (skip_whitespace s p line)) in *.
  destruct (Nat.lt_trichotomy p' q) as [Hlt|[Heq|Hgt]]; [|done|].
  - rewrite Hsep in H2 by lia. discriminate.
  - rewrite H3 in Hq by lia. discriminate.
Qed.

Lemma scan_number_go_spec s : forall rest p,
  drop p s = rest ->
  p <= scan_number_go rest p
  /\ (member numeric (charAt s p) = true -> p < scan_number_go rest p).
Proof.
  intros rest. induction rest as [|c rest IH]; intros p Hd; cbn [scan_number_go].
  - apply drop_nil in Hd. rewrite Hd. split; [lia|discriminate].
  - destruct (drop_cons _ _ _ _ Hd) as [Hc Hd']. rewrite Hc.
    destruct (member numeric (Some c)) eqn:Hm.
    + destruct (IH _ Hd') as [H1 _]. split; [lia|]. intros _. lia.
    + split; [lia|discriminate].
Qed.

Lemma indexOf_go_spec c : forall s i,
  indexOf_go c s i = (-1)%Z \/ (i <= indexOf_go c s i < i + Z.of_nat (String.length s))%Z.
Proof.
  induction s as [|d s IH]; intros i; simpl; [by left|].
  destruct (Ascii.eqb d c); [right; lia|].
  destruct (IH (i + 1)%Z) as [H|H]; [by left|right; lia].
Qed.

Lemma indexOfFrom_spec c s p :
  indexOfFrom c s p = (-1)%Z \/ (Z.of_nat p <= indexOfFrom c s p)%Z.
Proof.
  unfold indexOfFrom.
  destruct (indexOf_go_spec c (drop p s) (Z.of_nat p)) as [H|H]; [by left|right; lia].
Qed.

(** With a newline at the end of the text the comment loop ends, given fuel
    for the characters that remain. *)
Lemma skip_comment_ends s : 
  ends_with_newline s ->
  forall n p fuel,
    String.length s - p <= n -> p < String.length s -> n <= fuel ->
    exists p', skip_comment fuel s p = Some p' /\ p < p' <= String.length s.
Proof.
  intros [_ Hend]. induction n as [|n IH]; intros p fuel Hn Hp Hf; [lia|].
  destruct fuel as [|fuel]; [lia|]. simpl.
  destruct (charAt s p) as [c|] eqn:Hc.
  - destruct (Ascii.eqb_spec c newline) as [->|Hne].
    + exists (S p). split; [done|lia].
    + destruct (decide (S p = String.length s)) as [Hlast|Hmore].
      * replace (String.length s - 1) with p in Hend by lia. congruence.
      * destruct (IH (S p) fuel) as (p' & -> & Hp'); [lia|lia|lia|].
        exists p'. split; [done|lia].
  - by apply charAt_in_range in Hp.
Qed.

(** A letter or a slash is none of the characters an argument may start
    with, nor a separator. *)
Lemma letter_or_slash_starts_no_argument c :
  is_letter c = true \/ c = "/"%char ->
  bool_decide (Some c = Some ")"%char) = false
  /\ bool_decide (Some c = Some quote) = false
  /\ member numeric (Some c) = false
  /\ member separators (Some c) = false.
Proof.
  destruct c as [[] [] [] [] [] [] [] []]; intros [H|H]; try discriminate H;
    repeat split; reflexivity.
Qed.

(** After the position was set back to 0, the argument state finds the
    first command name or comment of the script and throws. *)
Lemma step_at_start_throws {Command : Type}
      (table : gmap string (list Arg -> Command)) script filename fuel m :
  opens_with_call_or_comment script ->
  state m = Some St_argument ->
  p m = 0 ->
  exists e, step table script filename fuel m = Thrown e.
Proof.
  intros (q & c & Hsep & Hq & Hc) Hst Hp.
  destruct (letter_or_slash_starts_no_argument c Hc) as (H1 & H2 & H3 & H4).
  assert (Hstop : fst (skip_whitespace script 0 (line m)) = q).
  { apply skip_whitespace_stops_at; [lia| |by rewrite Hq].
    intros i Hi. apply Hsep. lia. }
  unfold step. rewrite Hst, Hp.
  destruct (skip_whitespace script 0 (line m)) as [p' l'] eqn:E. simpl in Hstop. subst p'.
  rewrite Hq, H1, H2, H3. by eexists.
Qed.

Lemma skip_whitespace_fixed s p line :
  member separators (charAt s p) = false -> fst (skip_whitespace s p line) = p.
Proof. intros H. apply skip_whitespace_stops_at; [lia| |done]. intros i Hi. lia. Qed.

Ltac unfold_locals :=
  unfold pop_state, push_to, set_pos, set_state;
  cbn [state p stateStack commands currentCommand line].

Ltac unfold_potential := unfold parser_potential, parser_rank; unfold_locals.

(** One pass of the loop either throws, or keeps the invariant and lowers
    the potential, or sets the position back to 0 in the argument state. *)
Lemma step_progress {Command : Type}
      (table : gmap string (list Arg -> Command)) script filename fuel
      (m : @Locals Command) :
  ends_with_newline script ->
  parser_invariant script m ->
  p m < String.length script ->
  String.length script <= fuel ->
  (exists e, step table script filename fuel m = Thrown e)
  \/ (exists m', step table script filename fuel m = Returned m'
       /\ ((parser_invariant script m'
            /\ parser_potential script m' < parser_potential script m)
           \/ (opens_with_call_or_comment script
               /\ state m' = Some St_argument /\ p m' = 0))).
Proof.
  intros Hend (Hshape & Hws & Hnum & Hopen) Hp Hfuel.
  destruct m as [cmds cur pp st stack ln].
  unfold parser_shape in Hshape. cbn [state stateStack p] in *.
  unfold step. cbn [state p line currentCommand commands stateStack].
  destruct st as [[]|]; [| | | | | | |done]; subst stack.
  - (* default *)
    destruct (member separators (charAt script pp)) eqn:Hsep.
    { right. eexists. split; [reflexivity|]. left. split.
      - repeat split; cbn; try done.
        destruct Hopen as [Ho|[_ Ho]]; [by left|right]. split; [by right|done].
      - unfold_potential. lia. }
    destruct (charAt script pp) as [a|] eqn:Ha; [|by apply charAt_in_range in Hp].
    assert (Hopens : is_letter a = true \/ a = "/"%char -> opens_with_call_or_comment script).
    { intros Hc. destruct Hopen as [Ho|[_ Ho]]; [done|]. by exists pp, a. }
    destruct (match charAt script (S pp) with
              | Some b => Ascii.eqb a "/" && Ascii.eqb b "/"
              | None => false
              end) eqn:Hcomment.
    { right. eexists. split; [reflexivity|]. left. split.
      - repeat split; cbn; try done. left. apply Hopens. right.
        destruct (charAt script (S pp)); [|done].
        apply andb_prop in Hcomment as [Hs _]. by apply Ascii.eqb_eq in Hs.
      - unfold_potential. lia. }
    destruct (is_letter a) eqn:Hl.
    { right. eexists. split; [reflexivity|]. left. split.
      - repeat split; cbn; try done. left. apply Hopens. by left.
      - unfold_potential.
        case_bool_decide; lia. }
    left. by eexists.
  - (* whitespace *)
    destruct (skip_whitespace_spec script pp ln) as (H1 & H2 & H3 & H4).
    destruct (skip_whitespace script pp ln) as [p' l'] eqn:E. cbn [fst] in *.
    specialize (H4 (Hws eq_refl)).
    right. eexists. split; [reflexivity|]. left. split.
    + repeat split; cbn; try done.
      destruct Hopen as [Ho|[_ Ho]]; [by left|right]. split; [by left|].
      intros i Hi. destruct (Nat.lt_ge_cases i pp); [by apply Ho|apply H3; lia].
    + unfold_potential. lia.
  - (* single-line comment *)
    destruct (skip_comment_ends script Hend (String.length script) pp fuel)
      as (p' & -> & Hp'); [lia|lia|lia|].
    right. eexists. split; [reflexivity|]. left. split.
    + repeat split; cbn; try done.
      destruct Hopen as [Ho|[[Hs|Hs] _]]; [by left|done|done].
    + unfold_potential. lia.
  - (* function *)
    assert (Ho : opens_with_call_or_comment script)
      by (destruct Hopen as [Ho|[[Hs|Hs] _]]; done).
    destruct (skip_whitespace_spec script pp ln) as (H1 & H2 & H3 & _).
    pose proof (skip_whitespace_pos script pp ln 0) as Hpos.
    destruct (skip_whitespace script pp ln) as [p' l'] eqn:E. cbn [fst] in *.
    cbn [set_pos state p line currentCommand commands stateStack].
    case_bool_decide as Hparen.
    + destruct cur as [a|]; [|left; by eexists].
      destruct (table !! propertyKey (head a)); [|left; by eexists].
      right. eexists. split; [reflexivity|]. left. split.
      * repeat split; cbn; try done. by left.
      * pose proof (charAt_lt _ _ _ Hparen) as Hlt.
        unfold_potential.
        rewrite <- Hpos. rewrite bool_decide_eq_true_2 by done. lia.
    + destruct (indexOfFrom_spec "(" script p') as [Hi|Hi].
      * right. eexists. split; [reflexivity|]. right.
        split; [done|]. split; [done|]. unfold_locals. by rewrite Hi.
      * right. eexists. split; [reflexivity|]. left. split.
        -- repeat split; cbn; try done. by left.
        -- unfold_potential.
           rewrite <- Hpos. rewrite bool_decide_eq_false_2 by done. lia.
  - (* argument *)
    assert (Ho : opens_with_call_or_comment script)
      by (destruct Hopen as [Ho|[[Hs|Hs] _]]; done).
    destruct (skip_whitespace_spec script pp ln) as (H1 & H2 & H3 & _).
    destruct (skip_whitespace script pp ln) as [p' l'] eqn:E. cbn [fst] in *.
    cbn [set_pos state p line currentCommand commands stateStack].
    case_bool_decide as Hparen.
    { right. eexists. split; [reflexivity|]. left. split.
      - repeat split; cbn; try done. by left.
      - unfold_potential.
        rewrite (skip_whitespace_fixed script p' 0 H2).
        rewrite bool_decide_eq_true_2 by done. lia. }
    case_bool_decide as Hquote.
    { right. eexists. split; [reflexivity|]. left. split.
      - repeat split; cbn; try done. by left.
      - unfold_potential. lia. }
    destruct (member numeric (charAt script p')) eqn:Hn.
    { right. eexists. split; [reflexivity|]. left. split.
      - repeat split; cbn; try done. by left.
      - unfold_potential. lia. }
    left. by eexists.
  - (* argument_string *)
    assert (Ho : opens_with_call_or_comment script)
      by (destruct Hopen as [Ho|[[Hs|Hs] _]]; done).
    unfold push_arg. cbn [currentCommand commands p state stateStack line].
    destruct cur as [a|]; [|left; by eexists].
    destruct (indexOfFrom_spec quote script (S pp)) as [Hi|Hi].
    + right. eexists. split; [reflexivity|]. right.
      split; [done|]. split; [done|]. unfold_locals. by rewrite Hi.
    + right. eexists. split; [reflexivity|]. left. split.
      * repeat split; cbn; try done. by left.
      * unfold_potential. lia.
  - (* argument_number *)
    assert (Ho : opens_with_call_or_comment script)
      by (destruct Hopen as [Ho|[[Hs|Hs] _]]; done).
    unfold push_arg. cbn [currentCommand commands p state stateStack line].
    destruct cur as [a|]; [|left; by eexists].
    destruct (scan_number_go_spec script _ pp eq_refl) as [_ Hscan].
    specialize (Hscan (Hnum eq_refl)). fold (scan_number script pp) in Hscan.
    right. eexists. split; [reflexivity|]. left. split.
    + repeat split; cbn; try done. by left.
    + unfold_potential. lia.
Qed.

Lemma loop_ends {Command : Type}
      (table : gmap string (list Arg -> Command)) script filename :
  ends_with_newline script ->
  forall fuel m,
    parser_invariant script m ->
    parser_potential script m + String.length script + 2 <= fuel ->
    loop table script filename fuel m <> OutOfFuel.
Proof.
  intros Hend fuel. induction fuel as [|fuel IH]; intros m Hinv Hf; [lia|].
  rewrite parse_loop_S.
  destruct (Nat.ltb_spec (p m) (String.length script)) as [Hlt|_]; [|done].
  destruct (step_progress table script filename fuel m Hend Hinv Hlt)
    as [(e & ->)|(m' & -> & [[Hinv' Hpot]|(Ho & Hst & Hp0)])]; [lia|done| |].
  - apply IH; [done|lia].
  - destruct fuel as [|fuel]; [lia|]. rewrite parse_loop_S, Hp0.
    destruct (Nat.ltb_spec 0 (String.length script)) as [_|Hz]; [|lia].
    by destruct (step_at_start_throws table script filename fuel m' Ho Hst Hp0) as (e & ->).
Qed.

(** X1. On a script that ends with a newline the parser comes to an end:
    with fuel for five passes per character it returns a command list or
    throws. *)
Lemma parse_ends_on_scripts_ending_with_newline {Command : Type}
      (table : gmap string (list Arg -> Command)) (script filename : string) :
  ends_with_newline script ->
  (exists commands,
     parse table script filename (5 * String.length script + 5) = Returned commands)
  \/ (exists e, parse table script filename (5 * String.length script + 5) = Thrown e).
Proof.
  intros Hend.
  assert (H : parse table script filename (5 * String.length script + 5) <> OutOfFuel).
  { apply (loop_ends table script filename Hend).
    - repeat split; cbn; try done. right. split; [by left|]. intros i Hi. lia.
    - unfold parser_potential, parser_rank, initial. cbn [state p]. lia. }
  destruct (parse table script filename (5 * String.length script + 5)) as [c|e|];
    [left; by exists c|right; by exists e|done].
Qed.

End ParserFacts.

(** ** Value container *)





(** ** Labels *)

Lemma getLabel_unqualified (name : string) (e : Engine) (pl : Player) (s : Sequence) :
  Label_isFullname name = false ->
  active_player e = Returned pl ->
  Player_sequence pl e = Some s ->
  Engine_getLabel name e
  = Returned (labelTable e !! Label_fullname (seq_scriptName s) name).
Proof.
  intros Hn Ha Hs. unfold Engine_getLabel, Player_scriptName.
  by rewrite Hn, Ha, Hs.
Qed.

Lemma active_player_gosub (index : Z) (scriptName : string) (e : Engine) :
  active_player (Engine_gosub index scriptName e)
  = Returned (Player_reset (sequence_ref scriptName e) index).
Proof.
  unfold active_player, Engine_gosub, new_Player, sequence_ref. simpl.
  rewrite lookup_app_r by lia. by rewrite Nat.sub_diag.
Qed.

(** C6 (as stated, refuted). The name "/x" contains the separator and is the
    full name of a registered label, yet [getLabel] does not use it as it
    stands: it looks up "default//x" and finds nothing. *)
Lemma getLabel_leading_slash_requalified :
  contains_slash "/x" = true
  /\ labelTable (fst label_world) !! "/x" = Some (mkLabel EmptyString "x" 0)
  /\ Engine_getLabel "/x" (fst label_world) = Returned None
  /\ ~ used_as_is "/x" (fst label_world).
Proof.
  assert (H1 : labelTable (fst label_world) !! "/x" = Some (mkLabel EmptyString "x" 0))
    by (vm_compute; reflexivity).
  assert (H2 : Engine_getLabel "/x" (fst label_world) = Returned None)
    by (vm_compute; reflexivity).
  split; [reflexivity|]. split; [exact H1|]. split; [exact H2|].
  unfold used_as_is. rewrite H1, H2. discriminate.
Qed.

(** C6 (amended). A name whose first separator stands after its first
    character is used as it stands for the lookup, whatever the active
    player; a name whose first character is the separator is qualified
    against the active player's script name like an unqualified one. *)
Theorem getLabel_qualified_name (name : string) (e : Engine) :
  ((0 < JsString.indexOf "/" name)%Z -> used_as_is name e)
  /\ (JsString.indexOf "/" name = 0%Z ->
      forall pl s, active_player e = Returned pl -> Player_sequence pl e = Some s ->
      Engine_getLabel name e
      = Returned (labelTable e !! Label_fullname (seq_scriptName s) name)).
Proof.
  split.
  - intros H. unfold used_as_is, Engine_getLabel, Label_isFullname.
    apply Z.ltb_lt in H. by rewrite H.
  - intros H pl s Ha Hs. apply (getLabel_unqualified name e pl s); try done.
    unfold Label_isFullname. by rewrite H.
Qed.

Lemma getLabel_qualified_name_witness :
  used_as_is "default/top" (fst label_world)
  /\ Engine_getLabel "default/top" (fst label_world)
     = Returned (Some (mkLabel "default" "top" 1)).
Proof.
  assert (H : used_as_is "default/top" (fst label_world)).
  { apply (getLabel_qualified_name "default/top" (fst label_world)). reflexivity. }
  split; [exact H|]. rewrite H. vm_compute. reflexivity.
Defined.

(** C8. A name without the separator is looked up under the script name of
    the active player; after a [gosub] into another registered script that
    is the script of the new player, not the caller's; the outcome is a
    returned value in every case, [None] when no such label is registered. *)
Theorem getLabel_unqualified_uses_active_script (name : string) (e : Engine) :
  JsString.indexOf "/" name = (-1)%Z ->
  (forall pl s, active_player e = Returned pl -> Player_sequence pl e = Some s ->
     Engine_getLabel name e
     = Returned (labelTable e !! Label_fullname (seq_scriptName s) name))
  /\ (forall index target sq, sequences e !! target = Some sq ->
       Engine_getLabel name (Engine_gosub index target e)
       = Returned (labelTable e !! Label_fullname (seq_scriptName sq) name))
  /\ (forall pl s, active_player e = Returned pl -> Player_sequence pl e = Some s ->
       labelTable e !! Label_fullname (seq_scriptName s) name = None ->
       Engine_getLabel name e = Returned None).
Proof.
  intros Hn.
  assert (Hf : Label_isFullname name = false) by (unfold Label_isFullname; by rewrite Hn).
  split; [|split].
  - intros pl s Ha Hs. by apply (getLabel_unqualified name e pl s).
  - intros index target sq Ht.
    rewrite (getLabel_unqualified name _ _ sq Hf (active_player_gosub index target e)).
    + reflexivity.
    + unfold Player_sequence, Player_reset, sequence_ref. simpl. rewrite Ht. simpl.
      unfold Engine_gosub, new_Player. by simpl.
  - intros pl s Ha Hs Hmiss. rewrite (getLabel_unqualified name e pl s Hf Ha Hs).
    by rewrite Hmiss.
Qed.

Lemma getLabel_unqualified_uses_active_script_witness :
  Engine_getLabel "x" (fst label_world) = Returned None
  /\ Engine_getLabel "top" (fst label_world) = Returned (Some (mkLabel "default" "top" 1))
  /\ Engine_getLabel "x" (Engine_gosub 0 EmptyString (fst label_world))
     = Returned (Some (mkLabel EmptyString "x" 0)).
Proof.
  destruct (getLabel_unqualified_uses_active_script "x" (fst label_world) eq_refl)
    as (H1 & H2 & _).
  destruct (getLabel_unqualified_uses_active_script "top" (fst label_world) eq_refl)
    as (H3 & _).
  split; [|split].
  - rewrite (H1 (mkPlayer (Some "default") NewCommandReady (-1))
               (mkSequence "default" (Some [0; 2])));
      vm_compute; reflexivity.
  - rewrite (H3 (mkPlayer (Some "default") NewCommandReady (-1))
               (mkSequence "default" (Some [0; 2])));
      vm_compute; reflexivity.
  - rewrite (H2 0%Z EmptyString (mkSequence EmptyString (Some [1]))); vm_compute; reflexivity.
Defined.

(** ** One tick of a player *)

Section PlayerFacts.

Variable classOf : CmdRef -> CommandClass.

Lemma fetch_in_range prog i c :
  fetch prog i = Some c -> (Z.of_nat (length prog) <=? i)%Z = false.
Proof.
  unfold fetch. destruct (Z.ltb_spec i 0) as [|Hi]; [discriminate|].
  intros H. apply lookup_lt_Some in H. apply Z.leb_gt. lia.
Qed.

Lemma body_leave this e tr pl :
  players e !! this = Some pl ->
  cmd_isFinished classOf (currentCommand pl) e = false ->
  Player_run_body classOf this (e, tr) = Returned ((e, tr), Leave).
Proof. intros Hp Hf. unfold Player_run_body. by rewrite Hp, Hf. Qed.

Lemma body_halt this e tr pl prog :
  players e !! this = Some pl ->
  cmd_isFinished classOf (currentCommand pl) e = true ->
  Player_program pl e = Some prog ->
  (Z.of_nat (length prog) <= programCounter pl + 1)%Z ->
  Player_run_body classOf this (e, tr)
  = Returned ((write_player this
                 (mkPlayer (sequence pl) NewCommandHalt (programCounter pl + 1)) e, tr),
              Return).
Proof.
  intros Hp Hf Hprog Hlen. unfold Player_run_body. rewrite Hp, Hf.
  change (Player_program (set_programCounter (programCounter pl + 1) pl) e)
    with (Player_program pl e).
  rewrite Hprog. simpl. apply Z.leb_le in Hlen. by rewrite Hlen.
Qed.

Lemma players_write_lookup this pl pl' e :
  players e !! this = Some pl ->
  players (write_player this pl' e) !! this = Some pl'.
Proof.
  intros H. unfold write_player. simpl.
  apply list_lookup_insert_eq. by apply lookup_lt_Some in H.
Qed.

(** Activation of the next command when its [init] and [start] leave the
    players alone: both calls go to the fetched command. *)
Lemma body_activate this e tr pl prog c :
  players e !! this = Some pl ->
  cmd_isFinished classOf (currentCommand pl) e = true ->
  Player_program pl e = Some prog ->
  fetch prog (programCounter pl + 1) = Some c ->
  keeps_control (init (classOf c)) ->
  keeps_control (start (classOf c)) ->
  let e1 := write_player this (mkPlayer (sequence pl) (Fetched c) (programCounter pl + 1)) e in
  let w := call classOf MStart (Fetched c) (call classOf MInit (Fetched c) (e1, tr)) in
  Player_run_body classOf this (e, tr)
  = Returned (w, if cmd_isBreak classOf (Fetched c) (fst w) then Leave else Again)
    /\ players (fst w) = players e1
    /\ sequences (fst w) = sequences e
    /\ player (fst w) = player e
    /\ callStack (fst w) = callStack e
    /\ snd w = tr ++ [Call MInit (Fetched c); Call MStart (Fetched c)].
Proof.
  intros Hp Hf Hprog Hfetch Hi Hs e1 w.
  pose proof (players_write_lookup this pl
    (mkPlayer (sequence pl) (Fetched c) (programCounter pl + 1)) e Hp) as Hw.
  fold e1 in Hw.
  destruct (Hi c e1) as (Hi1 & Hi2 & Hi3 & Hi4).
  destruct (Hs c (init (classOf c) c e1)) as (Hs1 & Hs2 & Hs3 & Hs4).
  assert (Hpw : players (fst w) = players e1).
  { subst w. simpl. by rewrite Hs1, Hi1. }
  split; [|split; [exact Hpw|]].
  - unfold Player_run_body. rewrite Hp, Hf.
    change (Player_program (set_programCounter (programCounter pl + 1) pl) e)
      with (Player_program pl e).
    rewrite Hprog. simpl programCounter.
    rewrite (fetch_in_range _ _ _ Hfetch), Hfetch.
    change (write_player this (set_currentCommand (Fetched c)
              (set_programCounter (programCounter pl + 1) pl)) e) with e1.
    assert (H1 : players (fst (call classOf MInit (Fetched c) (e1, tr))) !! this
                 = Some (mkPlayer (sequence pl) (Fetched c) (programCounter pl + 1))).
    { simpl. by rewrite Hi1. }
    rewrite H1. simpl currentCommand. fold w.
    rewrite Hpw, Hw. simpl currentCommand.
    by destruct (cmd_isBreak classOf (Fetched c) (fst w)).
  - subst w. simpl. rewrite Hs2, Hi2, Hs3, Hi3, Hs4, Hi4.
    repeat split; try reflexivity. by rewrite <- app_assoc.
Qed.

(** Whatever the commands do, the loop body calls nothing but [init] and
    [start]. *)
Lemma body_trace this w w' ctl :
  Player_run_body classOf this w = Returned (w', ctl) ->
  exists adv, snd w' = snd w ++ adv /\ forallb activation adv = true.
Proof.
  destruct w as [e tr]. unfold Player_run_body. intros H.
  repeat (case_match; simplify_eq); simpl.
  all: try (exists []; by rewrite app_nil_r).
  all: eexists; rewrite <- app_assoc; split; [reflexivity|reflexivity].
Qed.

Lemma loop_trace fuel : forall this w w' ctl,
  Player_run_loop classOf fuel this w = Returned (w', ctl) ->
  ctl <> Again
  /\ exists adv, snd w' = snd w ++ adv /\ forallb activation adv = true.
Proof.
  induction fuel as [|fuel IH]; intros this w w' ctl H; simpl in H; [discriminate|].
  destruct (Player_run_body classOf this w) as [[w1 c1]| |] eqn:Hb; try discriminate.
  destruct (body_trace _ _ _ _ Hb) as (adv1 & E1 & F1).
  destruct c1.
  - destruct (IH _ _ _ _ H) as (Hc & adv2 & E2 & F2). split; [exact Hc|].
    exists (adv1 ++ adv2). rewrite E2, E1, app_assoc. split; [done|].
    rewrite forallb_app. by rewrite F1, F2.
  - simplify_eq. split; [done|]. by exists adv1.
  - simplify_eq. split; [done|]. by exists adv1.
Qed.

End PlayerFacts.

Section TickFacts.

Variable classOf : CmdRef -> CommandClass.

Lemma loop_S fuel this w :
  Player_run_loop classOf (S fuel) this w
  = match Player_run_body classOf this w with
    | Returned (w', Again) => Player_run_loop classOf fuel this w'
    | r => r
    end.
Proof. reflexivity. Qed.

Lemma rest_tail this e tr e' tr' :
  Player_run_rest classOf this (e, tr) = Returned (e', tr') ->
  exists tail, tr' = tr ++ tail /\ tick_tail classOf this e Leave tail e'.
Proof.
  unfold Player_run_rest. simpl. intros H.
  destruct (players e !! this) as [pl|] eqn:Hp; [|discriminate].
  destruct (cmd_isFinished classOf (currentCommand pl) e) eqn:Hf.
  - simplify_eq. exists []. rewrite app_nil_r. split; [done|].
    apply (tail_finished _ _ _ (currentCommand pl)); [|done].
    unfold current. by rewrite Hp.
  - destruct (players (effect classOf MUpdate (currentCommand pl) e) !! this)
      as [pl1|] eqn:Hp1; [|discriminate].
    destruct (cmd_isFinished classOf (currentCommand pl1)
                (effect classOf MUpdate (currentCommand pl) e)) eqn:Hf1.
    + simplify_eq. eexists. unfold call. simpl. rewrite <- app_assoc. split; [done|].
      apply tail_finish; try done; unfold current; by rewrite ?Hp, ?Hp1.
    + simplify_eq. eexists. split; [done|].
      apply (tail_update _ _ _ _ (currentCommand pl1)); try done;
        unfold current; by rewrite ?Hp, ?Hp1.
Qed.

(** A tick on an unfinished command whose [update] changes nothing. *)
Lemma rest_update_idle this w pl :
  players (fst w) !! this = Some pl ->
  cmd_isFinished classOf (currentCommand pl) (fst w) = false ->
  effect classOf MUpdate (currentCommand pl) (fst w) = fst w ->
  Player_run_rest classOf this w
  = Returned (fst w, snd w ++ [Call MUpdate (currentCommand pl)]).
Proof.
  intros Hp Hf Hu. unfold Player_run_rest. rewrite Hp, Hf.
  unfold call. simpl fst. rewrite Hu, Hp, Hf. reflexivity.
Qed.



End TickFacts.


(** ** Methods that leave the control state alone *)

Lemma keeps_control_nothing : keeps_control nothing.
Proof. intros r e. by repeat split. Qed.

Lemma keeps_control_stopCommand : keeps_control stopCommand.
Proof. intros r e. by repeat split. Qed.

Lemma keeps_control_init_ContinuousCommand st up fi :
  keeps_control (init (ContinuousCommand st up fi)).
Proof. intros r e. by repeat split. Qed.

Lemma keeps_control_Log message : keeps_control (start (Log message)).
Proof. intros r e. by repeat split. Qed.

(** ** A one-shot command followed by a halt *)

Section OneShotThenHalt.

Variable classOf : CmdRef -> CommandClass.

(** C2. A player that has not ticked yet, over the two-command sequence
    [o; h] of a one-shot command and a [CommandHalt]: one [run] calls the
    [start] of [o] and, in the same tick, makes [h] the current command at
    program counter 1, so that the player is halted. *)
Theorem oneshot_then_halt_in_one_tick
        (this : PlayerRef) (e : Engine) (tr : list Event) (s : string) (sq : Sequence)
        (o h : CmdRef) (st : CmdRef -> Engine -> Engine) (fuel : nat) :
  players e !! this = Some (Player_reset (Some s) 0) ->
  sequences e !! s = Some sq ->
  program sq = Some [o; h] ->
  classOf o = OneShotCommand st ->
  keeps_control st ->
  classOf h = CommandHalt ->
  exists e',
    Player_run classOf (3 + fuel) this (e, tr)
    = Returned (e', tr ++ [Call MInit (Fetched o); Call MStart (Fetched o);
                           Call MInit (Fetched h); Call MStart (Fetched h);
                           Call MUpdate (Fetched h)])
    /\ players e' !! this = Some (mkPlayer (Some s) (Fetched h) 1)
    /\ Player_isHalted classOf (mkPlayer (Some s) (Fetched h) 1) = true
    /\ console e'
       = console (st o (write_player this (mkPlayer (Some s) (Fetched o) 0) e)).
Proof.
  intros Hp Hs Hprog Ho Hst Hh.
  (* first pass: the ready sentinel is finished, [o] is activated *)
  assert (Hprog0 : Player_program (Player_reset (Some s) 0) e = Some [o; h]).
  { unfold Player_program, Player_sequence. simpl. by rewrite Hs. }
  destruct (body_activate classOf this e tr _ [o; h] o Hp eq_refl Hprog0 eq_refl)
    as (B1 & P1 & S1 & _ & _ & T1).
  { rewrite Ho. apply keeps_control_nothing. }
  { rewrite Ho. exact Hst. }
  cbv zeta in B1, P1, S1, T1.
  set (w1 := call classOf MStart (Fetched o) _) in *.
  assert (Hp1 : players (fst w1) !! this = Some (mkPlayer (Some s) (Fetched o) 0)).
  { rewrite P1. exact (players_write_lookup this _ _ e Hp). }
  assert (Hbr1 : cmd_isBreak classOf (Fetched o) (fst w1) = false).
  { simpl. by rewrite Ho. }
  rewrite Hbr1 in B1.
  (* second pass: [o] is finished, [h] is activated *)
  assert (Hprog1 : Player_program (mkPlayer (Some s) (Fetched o) 0) (fst w1) = Some [o; h]).
  { unfold Player_program, Player_sequence. simpl sequence. by rewrite S1, Hs. }
  assert (Hf1 : cmd_isFinished classOf (Fetched o) (fst w1) = true).
  { simpl. by rewrite Ho. }
  destruct (body_activate classOf this (fst w1) (snd w1) _ [o; h] h Hp1 Hf1 Hprog1 eq_refl)
    as (B2 & P2 & S2 & _ & _ & T2).
  { rewrite Hh. apply keeps_control_init_ContinuousCommand. }
  { rewrite Hh. apply keeps_control_nothing. }
  cbv zeta in B2, P2, S2, T2.
  set (w2 := call classOf MStart (Fetched h) _) in *.
  assert (Hp2 : players (fst w2) !! this = Some (mkPlayer (Some s) (Fetched h) 1)).
  { rewrite P2. exact (players_write_lookup this _ _ (fst w1) Hp1). }
  assert (Hbr2 : cmd_isBreak classOf (Fetched h) (fst w2) = false).
  { simpl. by rewrite Hh. }
  rewrite Hbr2 in B2.
  (* third pass: the halt is unfinished *)
  assert (Hf2 : cmd_isFinished classOf (Fetched h) (fst w2) = false).
  { subst w2. simpl. rewrite Hh. simpl. by rewrite lookup_insert_eq. }
  pose proof (body_leave classOf this (fst w2) (snd w2) _ Hp2 Hf2) as B3.
  assert (Hup : effect classOf MUpdate (Fetched h) (fst w2) = fst w2).
  { simpl. by rewrite Hh. }
  assert (Hcon : console (fst w2)
                 = console (st o (write_player this (mkPlayer (Some s) (Fetched o) 0) e))).
  { subst w2 w1. simpl. rewrite Hh, Ho. reflexivity. }
  rewrite <- surjective_pairing in B2, B3.
  clearbody w2 w1.
  exists (fst w2). split; [|split; [exact Hp2|split; [|exact Hcon]]].
  - unfold Player_run. change (3 + fuel) with (S (S (S fuel))).
    rewrite loop_S, B1, loop_S, B2, loop_S, B3.
    rewrite (rest_update_idle classOf this w2 _ Hp2 Hf2 Hup).
    simpl currentCommand. rewrite T2, T1. by rewrite <- !app_assoc.
  - unfold Player_isHalted, cmd_isHalt. simpl. by rewrite Hh.
Qed.

End OneShotThenHalt.

Lemma oneshot_then_halt_in_one_tick_witness :
  exists e',
    Player_run demo_classes (3 + 0) 0 (fst demo_world, [])
    = Returned (e', [] ++ [Call MInit (Fetched 0); Call MStart (Fetched 0);
                           Call MInit (Fetched 1); Call MStart (Fetched 1);
                           Call MUpdate (Fetched 1)])
    /\ players e' !! 0 = Some (mkPlayer (Some "default") (Fetched 1) 1)
    /\ Player_isHalted demo_classes (mkPlayer (Some "default") (Fetched 1) 1) = true
    /\ console e'
       = console (start (Log "Hello") 0
                    (write_player 0 (mkPlayer (Some "default") (Fetched 0) 0) (fst demo_world))).
Proof.
  apply (oneshot_then_halt_in_one_tick demo_classes 0 (fst demo_world) [] "default"
           (mkSequence "default" (Some [0; 1])) 0 1 (start (Log "Hello")) 0).
  - vm_compute. reflexivity.
  - vm_compute. reflexivity.
  - reflexivity.
  - reflexivity.
  - apply keeps_control_Log.
  - reflexivity.
Defined.

(** ** A halted engine *)

Section Quiescence.

Variable classOf : CmdRef -> CommandClass.

Lemma active_player_inv e pl :
  active_player e = Returned pl ->
  exists r, player e = Some r /\ players e !! r = Some pl.
Proof.
  unfold active_player. destruct (player e) as [r|]; [|discriminate].
  destruct (players e !! r) as [pl'|] eqn:E; [|discriminate].
  intros [= ->]. by exists r.
Qed.

Lemma halted_tick e halt fuel tr :
  halted_for_good classOf e halt ->
  Engine_run classOf (S fuel) (e, tr) = Returned (e, tr ++ [Call MUpdate halt]).
Proof.
  intros (Hstack & (pl & Ha & Hcur) & Hhalt).
  destruct (active_player_inv _ _ Ha) as (r & Hr & Hp).
  assert (Hf : cmd_isFinished classOf (currentCommand pl) e = false).
  { rewrite Hcur. destruct Hhalt as [->|(h & -> & _ & Hf)]; [reflexivity|exact Hf]. }
  assert (Hu : effect classOf MUpdate (currentCommand pl) e = e).
  { rewrite Hcur. destruct Hhalt as [->|(h & -> & Hh & _)]; [reflexivity|].
    simpl. by rewrite Hh. }
  unfold Engine_run. simpl fst. rewrite Hr.
  unfold Player_run. rewrite loop_S, (body_leave classOf r e tr pl Hp Hf).
  rewrite (rest_update_idle classOf r (e, tr) pl Hp Hf Hu). simpl fst. simpl snd.
  rewrite Ha, Hstack, Hcur. simpl. by rewrite andb_false_r.
Qed.

Lemma halted_runs e halt fuel n tr :
  halted_for_good classOf e halt ->
  Engine_runs classOf (S fuel) n (e, tr)
  = Returned (e, tr ++ replicate n (Call MUpdate halt)).
Proof.
  intros H. revert tr. induction n as [|n IH]; intros tr; simpl.
  - by rewrite app_nil_r.
  - rewrite (halted_tick e halt fuel tr H), IH.
    by rewrite <- app_assoc.
Qed.

(** C9. Once the engine rests on the halt with an empty call stack, any
    number of further [run] calls leaves the whole engine state as it is
    (program counter and current command included, so [isHalted] stays
    true) and calls nothing but the halt's empty [update]: no [start], no
    [finish]. *)
Theorem halted_engine_stays_halted e halt fuel n tr :
  halted_for_good classOf e halt ->
  Engine_runs classOf (S fuel) n (e, tr)
  = Returned (e, tr ++ replicate n (Call MUpdate halt))
  /\ Engine_isHalted classOf e = Returned true
  /\ (forall m target, In (Call m target) (replicate n (Call MUpdate halt)) ->
                       m = MUpdate /\ target = halt).
Proof.
  intros H. split; [by apply halted_runs|]. split.
  - destruct H as (_ & (pl & Ha & Hcur) & Hhalt).
    unfold Engine_isHalted, Player_isHalted. rewrite Ha, Hcur.
    destruct Hhalt as [->|(h & -> & Hh & _)]; [reflexivity|].
    simpl. by rewrite Hh.
  - intros m target Hin. apply list_elem_of_In, elem_of_replicate in Hin as [[= -> ->] _].
    done.
Qed.

End Quiescence.

(** The entry point's program rests on its [CommandHalt] after one tick. *)
Lemma demo_halted_after_first_tick :
  halted_for_good demo_classes (fst (after_ticks demo_classes demo_world 1)) (Fetched 1).
Proof.
  split; [vm_compute; reflexivity|]. split.
  - exists (mkPlayer (Some "default") (Fetched 1) 1). split; vm_compute; reflexivity.
  - right. exists 1. repeat split; vm_compute; reflexivity.
Qed.

Lemma halted_engine_stays_halted_witness :
  halted_for_good demo_classes (fst (after_ticks demo_classes demo_world 1)) (Fetched 1)
  /\ Engine_runs demo_classes (S 3) 5 (fst (after_ticks demo_classes demo_world 1), [])
     = Returned (fst (after_ticks demo_classes demo_world 1),
                 [] ++ replicate 5 (Call MUpdate (Fetched 1)))
  /\ Engine_isHalted demo_classes (fst (after_ticks demo_classes demo_world 1)) = Returned true.
Proof.
  split; [exact demo_halted_after_first_tick|].
  destruct (halted_engine_stays_halted demo_classes _ (Fetched 1) 3 5 []
              demo_halted_after_first_tick) as (H1 & H2 & _).
  by split.
Defined.


(** ** Registration *)

Section Registration.

Variable classOf : CmdRef -> CommandClass.

(** [onRegistered] of every command leaves the sequences alone. *)
Hypothesis onRegistered_keeps_sequences :
  forall c e, sequences (onRegistered (classOf c) c e) = sequences e.





End Registration.


(** ** Return from a subroutine *)

Section SubroutineReturn.

Variable classOf : CmdRef -> CommandClass.

Lemma Player_run_calls_extend fuel this w w' :
  Player_run classOf fuel this w = Returned w' ->
  exists more, snd w' = snd w ++ more.
Proof.
  unfold Player_run. intros H.
  destruct (Player_run_loop classOf fuel this w) as [[w1 ctl]|x|] eqn:Hl; try discriminate.
  destruct (loop_trace classOf _ _ _ _ _ Hl) as (_ & adv & E & _).
  destruct ctl.
  - destruct w1 as [e1 tr1], w' as [e' tr'].
    destruct (rest_tail classOf _ _ _ _ _ H) as (tail & -> & _).
    simpl in *. subst tr1. exists (adv ++ tail). by rewrite app_assoc.
  - destruct w1 as [e1 tr1], w' as [e' tr'].
    destruct (rest_tail classOf _ _ _ _ _ H) as (tail & -> & _).
    simpl in *. subst tr1. exists (adv ++ tail). by rewrite app_assoc.
  - injection H as <-. by exists adv.
Qed.

Lemma Engine_run_inv fuel w w' :
  Engine_run classOf fuel w = Returned w' ->
  exists r w1, player (fst w) = Some r
               /\ Player_run classOf fuel r w = Returned w1
               /\ snd w' = snd w1.
Proof.
  unfold Engine_run. intros H.
  destruct (player (fst w)) as [r|]; [|discriminate].
  destruct (Player_run classOf fuel r w) as [[e1 tr1]|x|] eqn:Hr; try discriminate.
  exists r, (e1, tr1). split; [done|]. split; [done|].
  destruct (active_player e1) as [pl|x|]; try discriminate.
  destruct (Player_isHalted classOf pl && (0 <? length (callStack e1))%nat);
    by injection H as <-.
Qed.

(** The pop: a tick that leaves the active player halted with a non-empty
    call stack makes the top of the stack the active player. *)
Lemma Engine_run_pops fuel e tr r e1 tr1 pl1 stack top :
  player e = Some r ->
  Player_run classOf fuel r (e, tr) = Returned (e1, tr1) ->
  active_player e1 = Returned pl1 ->
  Player_isHalted classOf pl1 = true ->
  callStack e1 = stack ++ [top] ->
  Engine_run classOf fuel (e, tr)
  = Returned (set_callStack stack (set_player top e1), tr1).
Proof.
  intros Hr Hrun Ha Hh Hs. unfold Engine_run. simpl fst.
  rewrite Hr, Hrun, Ha, Hh, Hs. rewrite length_app. simpl length.
  replace (0 <? length stack + 1)%nat with true
    by (symmetry; apply Nat.ltb_lt; lia).
  simpl. by rewrite last_snoc, removelast_last.
Qed.

Lemma rest_calls_extend this w w' :
  Player_run_rest classOf this w = Returned w' ->
  exists more, snd w' = snd w ++ more.
Proof.
  destruct w as [e tr], w' as [e' tr']. intros H.
  destruct (rest_tail classOf _ _ _ _ _ H) as (tail & -> & _). by exists tail.
Qed.

Lemma Player_run_S fuel this w :
  Player_run classOf (S fuel) this w
  = match Player_run_body classOf this w with
    | Returned (w', Again) => Player_run classOf fuel this w'
    | Returned (w', Leave) => Player_run_rest classOf this w'
    | Returned (w', Return) => Returned w'
    | Thrown x => Thrown x
    | OutOfFuel => OutOfFuel
    end.
Proof.
  unfold Player_run. rewrite loop_S.
  destruct (Player_run_body classOf this w) as [[w' []]|x|]; reflexivity.
Qed.

(** C4 (amended). The tick in which the subroutine's player ends halted
    pops the call stack into the active player. When the caller found there
    is parked on a command that reports finished, with a command [c] at its
    program counter + 1, the next [run] first moves the caller to that
    program counter and calls [init] and [start] on [c]: whenever that
    [run] returns, these are its first two calls, so the command on which
    the caller was parked is not started again. *)
Theorem gosub_return_resumes_parked_caller
        (fuel : nat) (e : Engine) (tr : list Event) (e1 : Engine) (tr1 : list Event)
        (sub caller : PlayerRef) (plsub pl : Player)
        (stack : list (option PlayerRef)) (prog : list CmdRef) (c : CmdRef) :
  let e2 := set_callStack stack (set_player (Some caller) e1) in
  player e = Some sub ->
  Player_run classOf fuel sub (e, tr) = Returned (e1, tr1) ->
  active_player e1 = Returned plsub ->
  Player_isHalted classOf plsub = true ->
  callStack e1 = stack ++ [Some caller] ->
  players e2 !! caller = Some pl ->
  cmd_isFinished classOf (currentCommand pl) e2 = true ->
  Player_program pl e2 = Some prog ->
  fetch prog (programCounter pl + 1) = Some c ->
  keeps_control (init (classOf c)) ->
  keeps_control (start (classOf c)) ->
  Engine_run classOf fuel (e, tr) = Returned (e2, tr1)
  /\ active_player e2 = Returned pl
  /\ callStack e2 = stack
  /\ (exists w ctl,
        Player_run_body classOf caller (e2, tr1) = Returned (w, ctl)
        /\ players (fst w) !! caller
           = Some (mkPlayer (sequence pl) (Fetched c) (programCounter pl + 1))
        /\ snd w = tr1 ++ [Call MInit (Fetched c); Call MStart (Fetched c)])
  /\ resumes_with classOf (e2, tr1) c.
Proof.
  intros e2 Hsub Hrun Ha Hh Hs Hp Hf Hprog Hfetch Hi Hst.
  destruct (body_activate classOf caller e2 tr1 pl prog c Hp Hf Hprog Hfetch Hi Hst)
    as (B & P & _ & _ & _ & T).
  cbv zeta in B, P, T.
  set (w := call classOf MStart (Fetched c) _) in *.
  assert (Hpw : players (fst w) !! caller
                = Some (mkPlayer (sequence pl) (Fetched c) (programCounter pl + 1))).
  { rewrite P. exact (players_write_lookup caller _ _ e2 Hp). }
  clearbody w.
  split; [exact (Engine_run_pops fuel e tr sub e1 tr1 plsub stack _ Hsub Hrun Ha Hh Hs)|].
  split. { unfold active_player. change (player e2) with (Some caller). cbv beta iota. by rewrite Hp. }
  split; [reflexivity|].
  split; [by eexists w, _|].
  intros k w' Hk.
  destruct (Engine_run_inv _ _ _ Hk) as (r & w1 & Hr & Hrun1 & ->).
  simpl in Hr. injection Hr as <-.
  destruct k as [|k]; [discriminate|].
  rewrite Player_run_S, B in Hrun1.
  assert (Hm : exists more, snd w1 = snd w ++ more).
  { destruct (cmd_isBreak classOf (Fetched c) (fst w)).
    - exact (rest_calls_extend _ _ _ Hrun1).
    - exact (Player_run_calls_extend _ _ _ _ Hrun1). }
  destruct Hm as (more & ->). exists more. rewrite T. simpl snd.
  by rewrite <- app_assoc.
Qed.

End SubroutineReturn.

Lemma gosub_return_resumes_parked_caller_witness :
  let e2 := set_callStack [] (set_player (Some 0) (fst breaking_sub_tick)) in
  Engine_run breaking_classes 8 (fst breaking_suspended, [])
  = Returned (e2, snd breaking_sub_tick)
  /\ snd breaking_sub_tick = [Call MInit (Fetched 2); Call MStart (Fetched 2)]
  /\ active_player e2 = Returned (mkPlayer (Some "default") (Fetched 0) 0)
  /\ resumes_with breaking_classes (e2, snd breaking_sub_tick) 1
  /\ calls_of (Engine_run breaking_classes 8 (e2, []))
     = Some [Call MInit (Fetched 1); Call MStart (Fetched 1)].
Proof.
  intros e2.
  destruct (gosub_return_resumes_parked_caller breaking_classes 8
              (fst breaking_suspended) [] (fst breaking_sub_tick) (snd breaking_sub_tick)
              1 0 (mkPlayer (Some "sub") NewCommandHalt 1)
              (mkPlayer (Some "default") (Fetched 0) 0) [] [0; 1] 1)
    as (H1 & H2 & _ & _ & H5).
  - vm_compute. reflexivity.
  - vm_compute. reflexivity.
  - vm_compute. reflexivity.
  - reflexivity.
  - vm_compute. reflexivity.
  - vm_compute. reflexivity.
  - reflexivity.
  - vm_compute. reflexivity.
  - reflexivity.
  - apply keeps_control_nothing.
  - apply keeps_control_Log.
  - split; [exact H1|]. split; [vm_compute; reflexivity|]. split; [exact H2|].
    split; [exact H5|]. vm_compute. reflexivity.
Defined.

(** C4 (as stated, refuted). A one-shot command at index 0 calls [gosub] in
    its [start]. The caller is put on the call stack, yet its own tick goes
    on and starts the command at index 1 before the subroutine has run. The
    next tick runs the subroutine to its halt and pops the caller; the [run]
    after that finds the caller halted at program counter 2 and calls only
    the halt's [update]: it does not resume at the index after the gosub, and
    the program counter stays where it was. *)
Lemma oneshot_gosub_caller_runs_ahead :
  let w1 := after_ticks gosub_classes (gosub_world gosub_classes) 1 in
  let w2 := after_ticks gosub_classes (gosub_world gosub_classes) 2 in
  (callStack (fst w1) = [Some 0] /\ player (fst w1) = Some 1
   /\ snd w1 = [Call MInit (Fetched 0); Call MStart (Fetched 0);
                Call MInit (Fetched 1); Call MStart (Fetched 1)])
  /\ (player (fst w2) = Some 0 /\ callStack (fst w2) = []
      /\ console (fst w2) = ["after"; "in sub"])
  /\ calls_of (Engine_run gosub_classes 8 (fst w2, [])) = Some [Call MUpdate NewCommandHalt]
  /\ players (fst w2) !! 0 = Some (mkPlayer (Some "default") NewCommandHalt 2)
  /\ players (fst (after_ticks gosub_classes (gosub_world gosub_classes) 3)) !! 0
     = Some (mkPlayer (Some "default") NewCommandHalt 2)
  /\ ~ resumes_with gosub_classes (fst w2, []) 1.
Proof.
  intros w1 w2.
  assert (H3 : calls_of (Engine_run gosub_classes 8 (fst w2, []))
               = Some [Call MUpdate NewCommandHalt]) by (vm_compute; reflexivity).
  split; [repeat split; vm_compute; reflexivity|].
  split; [repeat split; vm_compute; reflexivity|].
  split; [exact H3|].
  split; [vm_compute; reflexivity|]. split; [vm_compute; reflexivity|].
  intros H.
  destruct (Engine_run gosub_classes 8 (fst w2, [])) as [w'|x|] eqn:E; try discriminate.
  destruct (H 8 w' E) as (more & Hm). simpl in H3, Hm. rewrite Hm in H3. discriminate.
Qed.

(** ** Ticks of well-behaved programs return *)

Section Termination.

Variable classOf : CmdRef -> CommandClass.

Hypothesis all_benign : forall c, benign (classOf c).

Lemma fetch_some prog i :
  (0 <= i < Z.of_nat (length prog))%Z -> exists c, fetch prog i = Some c.
Proof.
  intros [H0 H1]. unfold fetch.
  destruct (Z.ltb_spec i 0) as [|_]; [lia|].
  destruct (lookup_lt_is_Some_2 prog (Z.to_nat i)) as [c Hc]; [lia|]. by exists c.
Qed.

(** The advancing loop ends within as many passes as commands remain. *)
Lemma loop_returns n : forall fuel this e tr pl prog,
  players e !! this = Some pl ->
  Player_program pl e = Some prog ->
  (-1 <= programCounter pl)%Z ->
  (Z.of_nat (length prog) - programCounter pl <= Z.of_nat n)%Z ->
  (n < fuel)%nat ->
  exists w ctl pl',
    Player_run_loop classOf fuel this (e, tr) = Returned (w, ctl)
    /\ players (fst w) !! this = Some pl'.
Proof.
  induction n as [|n IH]; intros fuel this e tr pl prog Hp Hprog Hpc Hn Hfuel;
    (destruct fuel as [|fuel]; [lia|]); rewrite loop_S;
    destruct (cmd_isFinished classOf (currentCommand pl) e) eqn:Hf.
  - rewrite (body_halt classOf this e tr pl prog Hp Hf Hprog) by lia.
    eexists _, _, _. split; [reflexivity|]. exact (players_write_lookup this pl _ e Hp).
  - rewrite (body_leave classOf this e tr pl Hp Hf). by eexists _, _, pl.
  - destruct (Z.le_gt_cases (Z.of_nat (length prog)) (programCounter pl + 1)) as [Hend|Hmore].
    + rewrite (body_halt classOf this e tr pl prog Hp Hf Hprog Hend).
      eexists _, _, _. split; [reflexivity|]. exact (players_write_lookup this pl _ e Hp).
    + destruct (fetch_some prog (programCounter pl + 1)) as [c Hc]; [lia|].
      destruct (all_benign c) as (Hi & Hs & _).
      destruct (body_activate classOf this e tr pl prog c Hp Hf Hprog Hc Hi Hs)
        as (B & P & S & _ & _ & _).
      cbv zeta in B, P, S. set (w := call classOf MStart (Fetched c) _) in *.
      assert (Hpw : players (fst w) !! this
                    = Some (mkPlayer (sequence pl) (Fetched c) (programCounter pl + 1))).
      { rewrite P. exact (players_write_lookup this pl _ e Hp). }
      clearbody w. rewrite B.
      destruct (cmd_isBreak classOf (Fetched c) (fst w)).
      * by eexists _, _, _.
      * destruct w as [e1 tr1].
        apply (IH fuel this e1 tr1 _ prog Hpw); simpl; try lia.
        unfold Player_program, Player_sequence in *. simpl in *. by rewrite S.
  - rewrite (body_leave classOf this e tr pl Hp Hf). by eexists _, _, pl.
Qed.

(** With methods that leave the control state alone, a tick of a player
    whose program counter is at least -1 returns on fuel that exceeds the
    length of the program by two. *)
Lemma tick_returns this e tr pl prog :
  players e !! this = Some pl ->
  Player_program pl e = Some prog ->
  (-1 <= programCounter pl)%Z ->
  exists w, Player_run classOf (length prog + 2) this (e, tr) = Returned w.
Proof.
  intros Hp Hprog Hpc.
  destruct (loop_returns (length prog + 1) (length prog + 2) this e tr pl prog Hp Hprog Hpc)
    as (w & ctl & pl' & Hl & Hp'); [lia|lia|].
  unfold Player_run. rewrite Hl.
  assert (Hr : exists w', Player_run_rest classOf this w = Returned w').
  { unfold Player_run_rest. rewrite Hp'.
    destruct (cmd_isFinished classOf (currentCommand pl') (fst w)); [by eexists|].
    assert (Hk : players (effect classOf MUpdate (currentCommand pl') (fst w))
                 = players (fst w)).
    { destruct (currentCommand pl') as [| |r]; try reflexivity.
      destruct (all_benign r) as (_ & _ & Hu & _). apply (Hu r (fst w)). }
    unfold call at 2 4. simpl fst. rewrite Hk, Hp'.
    destruct (cmd_isFinished classOf (currentCommand pl')
                (effect classOf MUpdate (currentCommand pl') (fst w))); by eexists. }
  destruct (loop_trace classOf _ _ _ _ _ Hl) as (Hagain & _).
  destruct ctl; [done|exact Hr|by eexists].
Qed.

End Termination.

(** * Further properties *)

(** ** Jumps *)

Section Jumps.

Variable classOf : CmdRef -> CommandClass.

Lemma sequence_ref_registered scriptName e sq :
  sequences e !! scriptName = Some sq -> sequence_ref scriptName e = Some scriptName.
Proof. intros H. unfold sequence_ref. by rewrite H. Qed.



(** What the first [run] does with a player that was just reset onto the
    sequence [s] at [index]. *)
Lemma run_reset_player this e tr s sq prog index fuel :
  players e !! this = Some (Player_reset (Some s) index) ->
  sequences e !! s = Some sq ->
  program sq = Some prog ->
  ((index < 0)%Z -> Player_run classOf (S fuel) this (e, tr) = Thrown TypeError)
  /\ ((Z.of_nat (length prog) <= index)%Z ->
      Player_run classOf (S fuel) this (e, tr)
      = Returned (write_player this (mkPlayer (Some s) NewCommandHalt index) e, tr)).
Proof.
  intros Hp Hs Hprog.
  assert (Hpp : Player_program (Player_reset (Some s) index) e = Some prog).
  { unfold Player_program, Player_sequence. simpl. by rewrite Hs. }
  split; intros Hi.
  - unfold Player_run. rewrite loop_S. unfold Player_run_body. rewrite Hp.
    cbn [currentCommand Player_reset cmd_isFinished].
    change (Player_program (set_programCounter _ _) e)
      with (Player_program (Player_reset (Some s) index) e).
    rewrite Hpp. cbn [programCounter set_programCounter Player_reset].
    replace (index - 1 + 1)%Z with index by lia.
    replace (Z.of_nat (length prog) <=? index)%Z with false
      by (symmetry; apply Z.leb_gt; lia).
    unfold fetch. replace (index <? 0)%Z with true by (symmetry; apply Z.ltb_lt; lia).
    reflexivity.
  - unfold Player_run. rewrite loop_S.
    rewrite (body_halt classOf this e tr _ prog Hp eq_refl Hpp)
      by (cbn [programCounter Player_reset]; lia).
    cbn [programCounter Player_reset sequence].
    by replace (index - 1 + 1)%Z with index by lia.
Qed.

Lemma goto_returns index scriptName e pl :
  active_player e = Returned pl ->
  exists r, player e = Some r
    /\ Engine_goto index scriptName e
       = Returned (write_player r (Player_reset (sequence_ref scriptName e) index) e)
    /\ players (write_player r (Player_reset (sequence_ref scriptName e) index) e) !! r
       = Some (Player_reset (sequence_ref scriptName e) index).
Proof.
  intros Ha. destruct (active_player_inv e pl Ha) as (r & Hr & Hp).
  exists r. split; [done|]. split.
  - unfold Engine_goto. by rewrite Hr.
  - exact (players_write_lookup r pl _ e Hp).
Qed.

Lemma gosub_new_player index scriptName e :
  player (Engine_gosub index scriptName e) = Some (length (players e))
  /\ players (Engine_gosub index scriptName e)
     = players e ++ [Player_reset (sequence_ref scriptName e) index]
  /\ players (Engine_gosub index scriptName e) !! length (players e)
     = Some (Player_reset (sequence_ref scriptName e) index)
  /\ callStack (Engine_gosub index scriptName e) = callStack e ++ [player e]
  /\ sequences (Engine_gosub index scriptName e) = sequences e.
Proof.
  unfold Engine_gosub, new_Player, sequence_ref. simpl. repeat split.
  rewrite lookup_app_r by lia. by rewrite Nat.sub_diag.
Qed.


(** X3. A jump to a negative index of a registered script also succeeds as a
    call and makes the next [run] throw: the player fetches [undefined] from
    the array and calls [init] on it. *)
Theorem jump_to_negative_index_throws_at_run
        (index : Z) (scriptName : string) (e : Engine) (sq : Sequence) (prog : list CmdRef) :
  sequences e !! scriptName = Some sq ->
  program sq = Some prog ->
  (index < 0)%Z ->
  (forall pl, active_player e = Returned pl ->
     exists e', Engine_goto index scriptName e = Returned e'
       /\ forall fuel tr, Engine_run classOf (S fuel) (e', tr) = Thrown TypeError)
  /\ (forall fuel tr,
        Engine_run classOf (S fuel) (Engine_gosub index scriptName e, tr) = Thrown TypeError).
Proof.
  intros Hs Hprog Hi. split.
  - intros pl Ha. destruct (goto_returns index scriptName e pl Ha) as (r & Hr & -> & Hp).
    eexists. split; [reflexivity|]. intros fuel tr.
    rewrite (sequence_ref_registered _ _ _ Hs) in *.
    destruct (run_reset_player r _ tr scriptName sq prog index fuel Hp Hs Hprog) as [H _].
    unfold Engine_run. cbn [fst]. change (player (write_player _ _ e)) with (player e).
    by rewrite Hr, (H Hi).
  - intros fuel tr.
    destruct (gosub_new_player index scriptName e) as (Hr & _ & Hp & _ & Hseq).
    rewrite (sequence_ref_registered _ _ _ Hs) in Hp. rewrite <- Hseq in Hs.
    destruct (run_reset_player _ _ tr scriptName sq prog index fuel Hp Hs Hprog) as [H _].
    unfold Engine_run. cbn [fst]. by rewrite Hr, (H Hi).
Qed.

(** X4. A [gosub] to an index at or past the end of a registered script
    returns at once: the next [run] calls no command, finds the new player
    halted and pops the caller, so that the active player and the call stack
    are what they were before the [gosub]; only the store has one more
    (halted) player. *)
Theorem gosub_past_the_end_returns_at_once
        (index : Z) (scriptName : string) (e : Engine) (sq : Sequence) (prog : list CmdRef)
        (fuel : nat) (tr : list Event) :
  sequences e !! scriptName = Some sq ->
  program sq = Some prog ->
  (Z.of_nat (length prog) <= index)%Z ->
  Engine_run classOf (S fuel) (Engine_gosub index scriptName e, tr)
  = Returned (set_players (players e ++ [mkPlayer (Some scriptName) NewCommandHalt index]) e,
              tr).
Proof.
  intros Hs Hprog Hi.
  destruct (gosub_new_player index scriptName e) as (Hr & Hps & Hp & Hcs & Hseq).
  rewrite (sequence_ref_registered _ _ _ Hs) in Hp, Hps. rewrite <- Hseq in Hs.
  destruct (run_reset_player _ _ tr scriptName sq prog index fuel Hp Hs Hprog) as [_ H].
  unfold Engine_run. cbn [fst]. rewrite Hr, (H Hi).
  set (e1 := write_player _ _ _).
  assert (Hps1 : players e1
                 = players e ++ [mkPlayer (Some scriptName) NewCommandHalt index]).
  { subst e1. unfold write_player. cbn [players set_players]. rewrite Hps.
    rewrite insert_app_r_alt by lia. by rewrite Nat.sub_diag. }
  assert (Ha : active_player e1
               = Returned (mkPlayer (Some scriptName) NewCommandHalt index)).
  { unfold active_player. change (player e1) with (player (Engine_gosub index scriptName e)).
    rewrite Hr, Hps1. rewrite lookup_app_r by lia. by rewrite Nat.sub_diag. }
  rewrite Ha. change (callStack e1) with (callStack (Engine_gosub index scriptName e)).
  rewrite Hcs. cbn [Player_isHalted cmd_isHalt currentCommand]. rewrite length_app.
  replace (0 <? length (callStack e) + length [player e])%nat with true
    by (symmetry; apply Nat.ltb_lt; simpl; lia).
  cbn [andb]. rewrite last_snoc, removelast_last. cbn [default].
  unfold set_callStack, set_player. cbn [players]. rewrite Hps1.
  subst e1. reflexivity.
Qed.

(** X5. A [goto] to an index at or past the end of a registered script
    stops the active player: the next [run] calls no command and leaves the
    player on a [CommandHalt]. With an empty call stack the engine is then
    halted for good; inside a subroutine the [goto] acts as a return, the
    next [run] making the top of the call stack the active player again. *)
Theorem goto_past_the_end_halts
        (index : Z) (scriptName : string) (e : Engine) (pl : Player) (sq : Sequence)
        (prog : list CmdRef) :
  active_player e = Returned pl ->
  sequences e !! scriptName = Some sq ->
  program sq = Some prog ->
  (Z.of_nat (length prog) <= index)%Z ->
  exists r e',
    player e = Some r
    /\ Engine_goto index scriptName e = Returned e'
    /\ let halted := write_player r (mkPlayer (Some scriptName) NewCommandHalt index) e in
       (callStack e = [] ->
        halted_for_good classOf halted NewCommandHalt
        /\ forall fuel tr, Engine_run classOf (S fuel) (e', tr) = Returned (halted, tr))
       /\ (forall stack top, callStack e = stack ++ [top] ->
           forall fuel tr,
             Engine_run classOf (S fuel) (e', tr)
             = Returned (set_callStack stack (set_player top halted), tr)).
Proof.
  intros Ha Hs Hprog Hi.
  destruct (goto_returns index scriptName e pl Ha) as (r & Hr & G & Hp).
  rewrite (sequence_ref_registered _ _ _ Hs) in *.
  exists r, (write_player r (Player_reset (Some scriptName) index) e).
  split; [done|]. split; [done|]. intros halted.
  assert (Hrun : forall fuel tr,
            Player_run classOf (S fuel) r
              (write_player r (Player_reset (Some scriptName) index) e, tr)
            = Returned (halted, tr)).
  { intros fuel tr.
    destruct (run_reset_player r _ tr scriptName sq prog index fuel Hp Hs Hprog) as [_ H].
    rewrite (H Hi). unfold halted, write_player. cbn [players set_players].
    by rewrite list_insert_insert_eq. }
  assert (Hh : active_player halted
               = Returned (mkPlayer (Some scriptName) NewCommandHalt index)).
  { unfold active_player. change (player halted) with (player e). rewrite Hr.
    destruct (active_player_inv e pl Ha) as (r' & Hr' & Hpl).
    assert (r' = r) as -> by congruence.
    unfold halted. by rewrite (players_write_lookup r pl _ e Hpl). }
  split.
  - intros Hcs. split.
    + split; [done|]. split; [|by left]. by eexists.
    + intros fuel tr. unfold Engine_run. cbn [fst].
      change (player (write_player r _ e)) with (player e).
      rewrite Hr, Hrun, Hh. change (callStack halted) with (callStack e).
      by rewrite Hcs.
  - intros stack top Hcs fuel tr.
    apply (Engine_run_pops classOf (S fuel) _ tr r halted tr
             (mkPlayer (Some scriptName) NewCommandHalt index) stack top);
      [done|apply Hrun|exact Hh|done|done].
Qed.

End Jumps.

(** ** What a tick changes *)

Section Ticks.

Variable classOf : CmdRef -> CommandClass.

Hypothesis all_benign : forall c, benign (classOf c).

Lemma at_counter_sequences e e' pl :
  sequences e' = sequences e -> at_counter e pl -> at_counter e' pl.
Proof.
  unfold at_counter, Player_program, Player_sequence. by intros ->.
Qed.

Lemma effect_keeps m c e :
  m <> MOnRegistered ->
  players (effect classOf m c e) = players e
  /\ sequences (effect classOf m c e) = sequences e
  /\ player (effect classOf m c e) = player e
  /\ callStack (effect classOf m c e) = callStack e.
Proof.
  intros Hm. destruct c as [| |r]; try done.
  destruct (all_benign r) as (Hi & Hs & Hu & Hf).
  destruct m; try done; simpl; [apply Hi|apply Hs|apply Hu|apply Hf].
Qed.

Lemma advanced_refl this e pl :
  players e !! this = Some pl -> at_counter e pl -> advanced this e e.
Proof.
  intros Hp Hc. split; [done|]. split; [done|]. split; [done|].
  exists pl, pl. rewrite list_insert_id by done.
  split; [done|]. split; [done|]. split; [done|]. split; [lia|done].
Qed.

Lemma advanced_trans this e e1 e2 :
  advanced this e e1 -> advanced this e1 e2 -> advanced this e e2.
Proof.
  intros (S1 & P1 & C1 & pl & pl1 & Hp & Hps1 & Hs1 & Hpc1 & _)
         (S2 & P2 & C2 & pl1' & pl2 & Hp1 & Hps2 & Hs2 & Hpc2 & Hat).
  assert (pl1' = pl1) as ->.
  { rewrite Hps1 in Hp1. rewrite list_lookup_insert_eq in Hp1; [congruence|].
    by apply lookup_lt_Some in Hp. }
  split; [congruence|]. split; [congruence|]. split; [congruence|].
  exists pl, pl2. split; [done|]. split.
  - by rewrite Hps2, Hps1, list_insert_insert_eq.
  - split; [congruence|]. split; [lia|done].
Qed.

(** The advancing loop ends within as many passes as commands remain, and
    only advances the player. *)
Lemma loop_advances n : forall fuel this e tr pl prog,
  players e !! this = Some pl ->
  Player_program pl e = Some prog ->
  (-1 <= programCounter pl)%Z ->
  at_counter e pl ->
  (Z.of_nat (length prog) - programCounter pl <= Z.of_nat n)%Z ->
  (n < fuel)%nat ->
  exists e' tr' ctl,
    Player_run_loop classOf fuel this (e, tr) = Returned ((e', tr'), ctl)
    /\ advanced this e e'.
Proof.
  assert (Hhalt : forall this e pl, players e !! this = Some pl ->
            advanced this e
              (write_player this
                 (mkPlayer (sequence pl) NewCommandHalt (programCounter pl + 1)) e)).
  { intros this e pl Hp. split; [done|]. split; [done|]. split; [done|].
    eexists pl, _. split; [done|]. split; [reflexivity|]. simpl.
    split; [done|]. split; [lia|done]. }
  induction n as [|n IH]; intros fuel this e tr pl prog Hp Hprog Hpc Hat Hn Hfuel;
    (destruct fuel as [|fuel]; [lia|]); rewrite loop_S;
    destruct (cmd_isFinished classOf (currentCommand pl) e) eqn:Hf.
  - rewrite (body_halt classOf this e tr pl prog Hp Hf Hprog) by lia.
    eexists _, _, _. split; [reflexivity|]. by apply Hhalt.
  - rewrite (body_leave classOf this e tr pl Hp Hf).
    eexists _, _, _. split; [reflexivity|]. by apply (advanced_refl this e pl).
  - destruct (Z.le_gt_cases (Z.of_nat (length prog)) (programCounter pl + 1)) as [Hend|Hmore].
    + rewrite (body_halt classOf this e tr pl prog Hp Hf Hprog Hend).
      eexists _, _, _. split; [reflexivity|]. by apply Hhalt.
    + destruct (fetch_some prog (programCounter pl + 1)) as [c Hc]; [lia|].
      destruct (all_benign c) as (Hi & Hs & _).
      destruct (body_activate classOf this e tr pl prog c Hp Hf Hprog Hc Hi Hs)
        as (B & P & S & Pl & Cs & _).
      cbv zeta in B, P, S, Pl, Cs. set (w := call classOf MStart (Fetched c) _) in *.
      set (pl1 := mkPlayer (sequence pl) (Fetched c) (programCounter pl + 1)) in *.
      assert (Hpw : players (fst w) !! this = Some pl1).
      { rewrite P. exact (players_write_lookup this pl _ e Hp). }
      assert (Hprog1 : Player_program pl1 (fst w) = Some prog).
      { unfold Player_program, Player_sequence in *. simpl in *. by rewrite S. }
      assert (Hat1 : at_counter (fst w) pl1).
      { unfold at_counter. cbn [currentCommand pl1]. by exists prog. }
      assert (Hadv : advanced this e (fst w)).
      { split; [done|]. split; [done|]. split; [done|].
        exists pl, pl1. split; [done|]. split; [exact P|].
        split; [done|]. split; [simpl; lia|done]. }
      clearbody w. rewrite B.
      destruct (cmd_isBreak classOf (Fetched c) (fst w)).
      * destruct w as [e1 tr1]. by eexists _, _, _.
      * destruct w as [e1 tr1].
        destruct (IH fuel this e1 tr1 pl1 prog Hpw Hprog1) as (e' & tr' & ctl & L & A);
          simpl; try lia; try done.
        exists e', tr', ctl. split; [done|]. by apply (advanced_trans this e e1 e').
  - rewrite (body_leave classOf this e tr pl Hp Hf).
    eexists _, _, _. split; [reflexivity|]. by apply (advanced_refl this e pl).
Qed.

Lemma rest_advances this e tr pl :
  players e !! this = Some pl ->
  at_counter e pl ->
  exists e' tr', Player_run_rest classOf this (e, tr) = Returned (e', tr')
    /\ advanced this e e'.
Proof.
  intros Hp Hat. unfold Player_run_rest. cbn [fst]. rewrite Hp.
  destruct (cmd_isFinished classOf (currentCommand pl) e).
  { eexists _, _. split; [reflexivity|]. by apply (advanced_refl this e pl). }
  destruct (effect_keeps MUpdate (currentCommand pl) e) as (K1 & K2 & K3 & K4); [done|].
  change (call classOf MUpdate (currentCommand pl) (e, tr))
    with (effect classOf MUpdate (currentCommand pl) e,
          tr ++ [Call MUpdate (currentCommand pl)]).
  cbn [fst]. rewrite K1, Hp.
  set (e1 := effect classOf MUpdate (currentCommand pl) e) in *.
  assert (A1 : advanced this e e1).
  { split; [done|]. split; [done|]. split; [done|]. exists pl, pl.
    rewrite list_insert_id by done.
    split; [done|]. split; [done|]. split; [done|]. split; [lia|].
    by apply (at_counter_sequences e). }
  destruct (cmd_isFinished classOf (currentCommand pl) e1).
  - destruct (effect_keeps MFinish (currentCommand pl) e1) as (F1 & F2 & F3 & F4); [done|].
    eexists _, _. split; [reflexivity|]. cbn [call fst].
    apply (advanced_trans this e e1); [done|].
    split; [done|]. split; [done|]. split; [done|]. exists pl, pl.
    assert (Hp1 : players e1 !! this = Some pl) by by rewrite K1.
    rewrite list_insert_id by done.
    split; [done|]. split; [done|]. split; [done|]. split; [lia|].
    apply (at_counter_sequences e); [congruence|done].
  - by eexists _, _.
Qed.

Lemma run_advances this e tr pl prog :
  players e !! this = Some pl ->
  Player_program pl e = Some prog ->
  (-1 <= programCounter pl)%Z ->
  at_counter e pl ->
  exists e' tr', Player_run classOf (length prog + 2) this (e, tr) = Returned (e', tr')
    /\ advanced this e e'.
Proof.
  intros Hp Hprog Hpc Hat.
  destruct (loop_advances (length prog + 1) (length prog + 2) this e tr pl prog
              Hp Hprog Hpc Hat) as (e1 & tr1 & ctl & Hl & A1); [lia|lia|].
  unfold Player_run. rewrite Hl.
  destruct (loop_trace classOf _ _ _ _ _ Hl) as (Hagain & _).
  destruct ctl; [done| |by eexists _, _].
  destruct A1 as (S1 & P1 & C1 & pl0 & pl1 & Hp0 & Hps1 & Hs1 & Hpc1 & Hat1).
  assert (Hp1 : players e1 !! this = Some pl1).
  { rewrite Hps1. apply list_lookup_insert_eq. by apply lookup_lt_Some in Hp0. }
  destruct (rest_advances this e1 tr1 pl1 Hp1 Hat1) as (e' & tr' & Hr & A2).
  exists e', tr'. split; [done|].
  apply (advanced_trans this e e1); [|done].
  split; [done|]. split; [done|]. split; [done|]. by exists pl0, pl1.
Qed.

Lemma engine_run_advances r e tr pl prog :
  player e = Some r ->
  players e !! r = Some pl ->
  Player_program pl e = Some prog ->
  (-1 <= programCounter pl)%Z ->
  at_counter e pl ->
  exists e1 e' tr',
    Engine_run classOf (length prog + 2) (e, tr) = Returned (e', tr')
    /\ Player_run classOf (length prog + 2) r (e, tr) = Returned (e1, tr')
    /\ advanced r e e1
    /\ (e' = e1
        \/ exists stack top pl1,
             callStack e = stack ++ [top]
             /\ players e1 !! r = Some pl1
             /\ Player_isHalted classOf pl1 = true
             /\ e' = set_callStack stack (set_player top e1)).
Proof.
  intros Hr Hp Hprog Hpc Hat.
  destruct (run_advances r e tr pl prog Hp Hprog Hpc Hat) as (e1 & tr' & Hrun & A).
  pose proof A as (S1 & P1 & C1 & pl0 & pl1 & Hp0 & Hps1 & _).
  assert (Hp1 : players e1 !! r = Some pl1).
  { rewrite Hps1. apply list_lookup_insert_eq. by apply lookup_lt_Some in Hp0. }
  unfold Engine_run. cbn [fst]. rewrite Hr, Hrun.
  unfold active_player. rewrite P1, Hr, Hp1, C1.
  destruct (Player_isHalted classOf pl1) eqn:Hh; cbn [andb].
  - destruct (callStack e) as [|a rest] eqn:Hcs using rev_ind.
    + exists e1, e1, tr'. cbn. by repeat (split; [done|]); left.
    + rewrite length_app, last_snoc, removelast_last. cbn [default].
      replace (0 <? length rest + length [a])%nat with true
        by (symmetry; apply Nat.ltb_lt; simpl; lia).
      eexists e1, _, tr'. split; [reflexivity|]. split; [done|]. split; [done|].
      right. by exists rest, a, pl1.
  - exists e1, e1, tr'. by repeat (split; [done|]); left.
Qed.

(** A tick on a player about to activate the command [c] records [init]
    and [start] on [c] first. *)
Lemma run_starts_with r e tr pl prog c fuel e' tr' :
  players e !! r = Some pl ->
  cmd_isFinished classOf (currentCommand pl) e = true ->
  Player_program pl e = Some prog ->
  fetch prog (programCounter pl + 1) = Some c ->
  Player_run classOf fuel r (e, tr) = Returned (e', tr') ->
  exists more, tr' = tr ++ [Call MInit (Fetched c); Call MStart (Fetched c)] ++ more.
Proof.
  intros Hp Hf Hprog Hc Hrun.
  destruct fuel as [|fuel]; [done|]. rewrite Player_run_S in Hrun.
  destruct (all_benign c) as (Hi & Hs & _).
  destruct (body_activate classOf r e tr pl prog c Hp Hf Hprog Hc Hi Hs)
    as (B & _ & _ & _ & _ & T).
  cbv zeta in B, T. set (w := call classOf MStart (Fetched c) _) in *. clearbody w.
  rewrite B in Hrun.
  destruct (cmd_isBreak classOf (Fetched c) (fst w)).
  - destruct (rest_calls_extend classOf r w _ Hrun) as [more Hm].
    exists more. cbn [snd] in Hm. by rewrite Hm, T, <- app_assoc.
  - destruct (Player_run_calls_extend classOf fuel r w _ Hrun) as [more Hm].
    exists more. cbn [snd] in Hm. by rewrite Hm, T, <- app_assoc.
Qed.

(** X6. A tick only advances its player. With commands whose methods leave
    the control state alone, [Player.run] returns, and afterwards the player
    is on the same sequence with a program counter that has not gone back,
    resting on a sentinel or on the command at its program counter; the
    other players, the sequences, the active player and the call stack are
    unchanged, and the calls recorded before are still there. *)
Theorem tick_only_advances_its_player
        (this : PlayerRef) (e : Engine) (tr : list Event) (pl : Player) (prog : list CmdRef) :
  players e !! this = Some pl ->
  Player_program pl e = Some prog ->
  (-1 <= programCounter pl)%Z ->
  at_counter e pl ->
  exists e' more,
    Player_run classOf (length prog + 2) this (e, tr) = Returned (e', tr ++ more)
    /\ advanced this e e'.
Proof.
  intros Hp Hprog Hpc Hat.
  destruct (run_advances this e tr pl prog Hp Hprog Hpc Hat) as (e' & tr' & Hrun & A).
  destruct (Player_run_calls_extend classOf _ this _ _ Hrun) as [more Hm].
  cbn [snd] in Hm. subst tr'. by exists e', more.
Qed.

(** X7. [Engine.run] returns, keeps the calls recorded before, never pushes
    on the call stack and pops at most one entry, and only when the player
    it ran has come to a halt: the state after the call is the state [e1]
    the player's tick left, or [e1] with the top of the call stack made the
    active player. *)
Theorem engine_run_pops_only_a_halted_player
        (r : PlayerRef) (e : Engine) (tr : list Event) (pl : Player) (prog : list CmdRef) :
  player e = Some r ->
  players e !! r = Some pl ->
  Player_program pl e = Some prog ->
  (-1 <= programCounter pl)%Z ->
  at_counter e pl ->
  exists e1 e' more,
    Engine_run classOf (length prog + 2) (e, tr) = Returned (e', tr ++ more)
    /\ Player_run classOf (length prog + 2) r (e, tr) = Returned (e1, tr ++ more)
    /\ advanced r e e1
    /\ (e' = e1
        \/ exists stack top pl1,
             callStack e = stack ++ [top]
             /\ players e1 !! r = Some pl1
             /\ Player_isHalted classOf pl1 = true
             /\ e' = set_callStack stack (set_player top e1)).
Proof.
  intros Hr Hp Hprog Hpc Hat.
  destruct (engine_run_advances r e tr pl prog Hr Hp Hprog Hpc Hat)
    as (e1 & e' & tr' & E & R & A & Hpop).
  destruct (Player_run_calls_extend classOf _ r _ _ R) as [more Hm].
  cbn [snd] in Hm. subst tr'. by exists e1, e', more.
Qed.

(** X8. A jump to an index inside a registered script takes effect at the
    next [run]: the call of [goto] or [gosub] itself calls no command, and
    the next [run] returns with [init] and [start] of the command at that
    index as its first calls. *)
Theorem jump_starts_at_index
        (index : Z) (scriptName : string) (e : Engine) (sq : Sequence)
        (prog : list CmdRef) (c : CmdRef) (tr : list Event) :
  sequences e !! scriptName = Some sq ->
  program sq = Some prog ->
  fetch prog index = Some c ->
  (forall pl, active_player e = Returned pl ->
     exists e' w', Engine_goto index scriptName e = Returned e'
       /\ Engine_run classOf (length prog + 2) (e', tr) = Returned w'
       /\ exists more,
            snd w' = tr ++ [Call MInit (Fetched c); Call MStart (Fetched c)] ++ more)
  /\ (exists w',
        Engine_run classOf (length prog + 2) (Engine_gosub index scriptName e, tr)
        = Returned w'
        /\ exists more,
             snd w' = tr ++ [Call MInit (Fetched c); Call MStart (Fetched c)] ++ more).
Proof.
  intros Hs Hprog Hc.
  assert (Hidx : (0 <= index)%Z).
  { unfold fetch in Hc. destruct (Z.ltb_spec index 0); [done|lia]. }
  assert (Hstart : forall e0 r, player e0 = Some r ->
            players e0 !! r = Some (Player_reset (Some scriptName) index) ->
            sequences e0 = sequences e ->
            exists w', Engine_run classOf (length prog + 2) (e0, tr) = Returned w'
              /\ exists more,
                   snd w' = tr ++ [Call MInit (Fetched c); Call MStart (Fetched c)] ++ more).
  { intros e0 r Hr Hp Hseq.
    assert (Hpp : Player_program (Player_reset (Some scriptName) index) e0 = Some prog).
    { unfold Player_program, Player_sequence. simpl. by rewrite Hseq, Hs. }
    destruct (engine_run_advances r e0 tr _ prog Hr Hp Hpp) as (e1 & e' & tr' & E & R & _);
      [simpl; lia|done|].
    exists (e', tr'). split; [done|]. cbn [snd].
    apply (run_starts_with r e0 tr _ prog c (length prog + 2) e1 tr' Hp eq_refl Hpp);
      [|done].
    simpl. by replace (index - 1 + 1)%Z with index by lia. }
  split.
  - intros pl Ha. destruct (goto_returns index scriptName e pl Ha) as (r & Hr & G & Hp).
    rewrite (sequence_ref_registered _ _ _ Hs) in *.
    destruct (Hstart (write_player r (Player_reset (Some scriptName) index) e) r Hr Hp eq_refl)
      as (w' & E & M).
    eexists _, w'. by split.
  - destruct (gosub_new_player index scriptName e) as (Hr & _ & Hp & _ & Hseq).
    rewrite (sequence_ref_registered _ _ _ Hs) in Hp.
    exact (Hstart _ _ Hr Hp Hseq).
Qed.

End Ticks.

(** ** Scripts of one-shot commands *)

Section OneShots.

Variable classOf : CmdRef -> CommandClass.

Lemma drop_fetch prog i c rest :
  (0 <= i)%Z ->
  drop (Z.to_nat i) prog = c :: rest ->
  fetch prog i = Some c /\ drop (Z.to_nat (i + 1)) prog = rest.
Proof.
  intros Hi Hd.
  assert (Hc : prog !! Z.to_nat i = Some c).
  { pose proof (lookup_drop prog (Z.to_nat i) 0) as H.
    rewrite Hd, Nat.add_0_r in H. by rewrite <- H. }
  split.
  - unfold fetch. by destruct (Z.ltb_spec i 0); [lia|].
  - rewrite (drop_S _ _ _ Hc) in Hd. replace (Z.to_nat (i + 1)) with (S (Z.to_nat i)) by lia.
    congruence.
Qed.

Lemma one_shots_loop : forall rest fuel this e tr pl prog,
  players e !! this = Some pl ->
  cmd_isFinished classOf (currentCommand pl) e = true ->
  Player_program pl e = Some prog ->
  (-1 <= programCounter pl)%Z ->
  (programCounter pl + 1 <= Z.of_nat (length prog))%Z ->
  remaining pl prog = rest ->
  Forall (fun c => plain_one_shot (classOf c)) rest ->
  (length rest < fuel)%nat ->
  Player_run_loop classOf fuel this (e, tr)
  = Returned ((write_player this
                 (mkPlayer (sequence pl) NewCommandHalt (Z.of_nat (length prog)))
                 (start_all classOf this (sequence pl) (programCounter pl + 1) rest e),
               tr ++ activations rest), Return).
Proof.
  induction rest as [|c rest IH]; intros fuel this e tr pl prog Hp Hf Hprog Hpc Hle Hrest
    Hall Hfuel; (destruct fuel as [|fuel]; [simpl in Hfuel; lia|]); rewrite loop_S.
  - assert (Hlen : (Z.of_nat (length prog) = programCounter pl + 1)%Z).
    { apply (f_equal length) in Hrest. unfold remaining in Hrest.
      rewrite length_drop in Hrest. simpl in Hrest. lia. }
    rewrite (body_halt classOf this e tr pl prog Hp Hf Hprog) by lia.
    cbn [start_all activations flat_map]. by rewrite app_nil_r, Hlen.
  - destruct (drop_fetch prog (programCounter pl + 1) c rest) as [Hc Hrest']; [lia|done|].
    apply Forall_cons in Hall as [(st & Hcls & Hst) Hall].
    assert (Hi : keeps_control (init (classOf c)))
      by (rewrite Hcls; exact keeps_control_nothing).
    assert (Hs : keeps_control (start (classOf c))) by (by rewrite Hcls).
    destruct (body_activate classOf this e tr pl prog c Hp Hf Hprog Hc Hi Hs)
      as (B & P & S & _ & _ & T).
    cbv zeta in B, P, S, T.
    set (pl1 := mkPlayer (sequence pl) (Fetched c) (programCounter pl + 1)) in *.
    assert (Hw : call classOf MStart (Fetched c)
                   (call classOf MInit (Fetched c) (write_player this pl1 e, tr))
                 = (start (classOf c) c (write_player this pl1 e),
                    tr ++ [Call MInit (Fetched c); Call MStart (Fetched c)])).
    { unfold call, effect, method_of. cbn [fst snd]. rewrite Hcls.
      cbn [init start OneShotCommand nothing]. by rewrite <- app_assoc. }
    rewrite Hw in B, P, S. cbn [fst] in B, P, S.
    assert (Hbr : cmd_isBreak classOf (Fetched c)
                    (start (classOf c) c (write_player this pl1 e)) = false).
    { unfold cmd_isBreak. by rewrite Hcls. }
    rewrite B, Hbr.
    assert (Hp1 : players (start (classOf c) c (write_player this pl1 e)) !! this = Some pl1).
    { rewrite P. exact (players_write_lookup this pl _ e Hp). }
    assert (Hlt : (programCounter pl + 1 < Z.of_nat (length prog))%Z).
    { unfold fetch in Hc. destruct (Z.ltb_spec (programCounter pl + 1) 0); [done|].
      apply lookup_lt_Some in Hc. lia. }
    rewrite (IH fuel this _ _ pl1 prog Hp1).
    + cbn [start_all activations flat_map sequence programCounter pl1].
      by rewrite <- !app_assoc.
    + unfold cmd_isFinished. cbn [currentCommand pl1]. by rewrite Hcls.
    + unfold Player_program, Player_sequence in *. cbn [sequence pl1]. by rewrite S.
    + cbn [programCounter pl1]. lia.
    + cbn [programCounter pl1]. lia.
    + exact Hrest'.
    + exact Hall.
    + simpl in Hfuel. lia.
Qed.

Lemma start_all_frame this sq rest :
  Forall (fun c => plain_one_shot (classOf c)) rest ->
  forall pc e,
    sequences (start_all classOf this sq pc rest e) = sequences e
    /\ player (start_all classOf this sq pc rest e) = player e
    /\ callStack (start_all classOf this sq pc rest e) = callStack e
    /\ forall x, <[this := x]> (players (start_all classOf this sq pc rest e))
                 = <[this := x]> (players e).
Proof.
  induction 1 as [|c rest (st & Hcls & Hst) _ IH]; intros pc e; [done|].
  cbn [start_all]. rewrite Hcls. cbn [start OneShotCommand].
  destruct (IH (pc + 1)%Z (st c (write_player this (mkPlayer sq (Fetched c) pc) e)))
    as (I1 & I2 & I3 & I4).
  destruct (Hst c (write_player this (mkPlayer sq (Fetched c) pc) e)) as (K1 & K2 & K3 & K4).
  split; [by rewrite I1, K2|]. split; [by rewrite I2, K3|]. split; [by rewrite I3, K4|].
  intros x. rewrite I4, K1. unfold write_player. cbn [players set_players].
  by rewrite list_insert_insert_eq.
Qed.

Lemma start_all_logs (message : CmdRef -> string) this sq rest :
  Forall (fun c => classOf c = Log (message c)) rest ->
  forall pc e,
    console (start_all classOf this sq pc rest e) = console e ++ map message rest
    /\ valueContainer (start_all classOf this sq pc rest e) = valueContainer e
    /\ labelTable (start_all classOf this sq pc rest e) = labelTable e.
Proof.
  induction 1 as [|c rest Hcls _ IH]; intros pc e.
  - cbn [start_all map]. by rewrite app_nil_r.
  - cbn [start_all map]. rewrite Hcls. cbn [start Log OneShotCommand].
    destruct (IH (pc + 1)%Z
                (set_console (console (write_player this (mkPlayer sq (Fetched c) pc) e)
                              ++ [message c])
                   (write_player this (mkPlayer sq (Fetched c) pc) e)))
      as (I1 & I2 & I3).
    rewrite I1, I2, I3. cbn. by rewrite <- app_assoc.
Qed.

Lemma plain_one_shot_Log message : plain_one_shot (Log message).
Proof. eexists. split; [reflexivity|]. intros r e. by repeat split. Qed.

Lemma one_shots_run fuel r e tr pl prog :
  player e = Some r ->
  callStack e = [] ->
  players e !! r = Some pl ->
  cmd_isFinished classOf (currentCommand pl) e = true ->
  Player_program pl e = Some prog ->
  (-1 <= programCounter pl)%Z ->
  (programCounter pl + 1 <= Z.of_nat (length prog))%Z ->
  Forall (fun c => plain_one_shot (classOf c)) (remaining pl prog) ->
  (length (remaining pl prog) < fuel)%nat ->
  let e' := write_player r (mkPlayer (sequence pl) NewCommandHalt (Z.of_nat (length prog)))
              (start_all classOf r (sequence pl) (programCounter pl + 1)
                 (remaining pl prog) e) in
  Engine_run classOf fuel (e, tr) = Returned (e', tr ++ activations (remaining pl prog))
  /\ halted_for_good classOf e' NewCommandHalt
  /\ players e' = <[r := mkPlayer (sequence pl) NewCommandHalt (Z.of_nat (length prog))]>
                    (players e)
  /\ sequences e' = sequences e.
Proof.
  intros Hr Hcs Hp Hf Hprog Hpc Hle Hall Hfuel e'.
  pose proof (one_shots_loop _ fuel r e tr pl prog Hp Hf Hprog Hpc Hle eq_refl Hall Hfuel)
    as Hl. fold e' in Hl.
  destruct (start_all_frame r (sequence pl) _ Hall (programCounter pl + 1)%Z e)
    as (F1 & F2 & F3 & F4).
  assert (Hps : players e'
                = <[r := mkPlayer (sequence pl) NewCommandHalt (Z.of_nat (length prog))]>
                    (players e)).
  { unfold e', write_player. cbn [players set_players]. apply F4. }
  assert (Ha : active_player e'
               = Returned (mkPlayer (sequence pl) NewCommandHalt (Z.of_nat (length prog)))).
  { unfold active_player. change (player e') with (player (start_all classOf r (sequence pl)
      (programCounter pl + 1) (remaining pl prog) e)).
    rewrite F2, Hr, Hps. rewrite list_lookup_insert_eq; [done|]. by apply lookup_lt_Some in Hp. }
  assert (Hc : callStack e' = []).
  { change (callStack e') with (callStack (start_all classOf r (sequence pl)
      (programCounter pl + 1) (remaining pl prog) e)). by rewrite F3. }
  split; [|split; [|split]].
  - unfold Engine_run, Player_run. cbn [fst]. by rewrite Hr, Hl, Ha, Hc.
  - split; [done|]. split; [by eexists|by left].
  - exact Hps.
  - change (sequences e') with (sequences (start_all classOf r (sequence pl)
      (programCounter pl + 1) (remaining pl prog) e)). exact F1.
Qed.

(** X9. One-shot commands never yield: when every command the active player
    has still to activate is a one-shot command whose [start] leaves the
    control state alone, a single [run] activates all of them in program
    order, calls nothing else and leaves the engine halted for good, the
    program counter at the length of the program. *)
Theorem one_shot_commands_all_run_in_one_tick
        (fuel : nat) (r : PlayerRef) (e : Engine) (tr : list Event) (pl : Player)
        (prog : list CmdRef) :
  player e = Some r ->
  callStack e = [] ->
  players e !! r = Some pl ->
  cmd_isFinished classOf (currentCommand pl) e = true ->
  Player_program pl e = Some prog ->
  (-1 <= programCounter pl)%Z ->
  (programCounter pl + 1 <= Z.of_nat (length prog))%Z ->
  Forall (fun c => plain_one_shot (classOf c)) (remaining pl prog) ->
  (length (remaining pl prog) < fuel)%nat ->
  exists e',
    Engine_run classOf fuel (e, tr) = Returned (e', tr ++ activations (remaining pl prog))
    /\ halted_for_good classOf e' NewCommandHalt
    /\ players e' = <[r := mkPlayer (sequence pl) NewCommandHalt (Z.of_nat (length prog))]>
                      (players e)
    /\ sequences e' = sequences e.
Proof.
  intros Hr Hcs Hp Hf Hprog Hpc Hle Hall Hfuel.
  eexists. exact (one_shots_run fuel r e tr pl prog Hr Hcs Hp Hf Hprog Hpc Hle Hall Hfuel).
Qed.

(** X10. A script of [Log] commands prints its messages in program order in
    one [run]: the console afterwards is the console before followed by the
    messages of the commands still to activate, and the values and labels
    are untouched. *)
Theorem log_script_prints_in_order
        (message : CmdRef -> string) (fuel : nat) (r : PlayerRef) (e : Engine)
        (tr : list Event) (pl : Player) (prog : list CmdRef) :
  player e = Some r ->
  callStack e = [] ->
  players e !! r = Some pl ->
  cmd_isFinished classOf (currentCommand pl) e = true ->
  Player_program pl e = Some prog ->
  (-1 <= programCounter pl)%Z ->
  (programCounter pl + 1 <= Z.of_nat (length prog))%Z ->
  Forall (fun c => classOf c = Log (message c)) (remaining pl prog) ->
  (length (remaining pl prog) < fuel)%nat ->
  exists e' tr',
    Engine_run classOf fuel (e, tr) = Returned (e', tr')
    /\ console e' = console e ++ map message (remaining pl prog)
    /\ valueContainer e' = valueContainer e
    /\ labelTable e' = labelTable e.
Proof.
  intros Hr Hcs Hp Hf Hprog Hpc Hle Hall Hfuel.
  assert (Hplain : Forall (fun c => plain_one_shot (classOf c)) (remaining pl prog)).
  { eapply Forall_impl; [exact Hall|]. intros c ->. apply plain_one_shot_Log. }
  destruct (one_shots_run fuel r e tr pl prog Hr Hcs Hp Hf Hprog Hpc Hle Hplain Hfuel)
    as (E & _).
  destruct (start_all_logs message r (sequence pl) _ Hall (programCounter pl + 1)%Z e)
    as (L1 & L2 & L3).
  eexists _, _. split; [exact E|]. by split; [|split].
Qed.

End OneShots.

(** ** Labels *)

Lemma indexOf_go_found c l : forall s i,
  (i <= JsString.indexOf_go c (s +:+ String c l) i)%Z.
Proof.
  induction s as [|d s IH]; intros i; simpl.
  - by rewrite Ascii.eqb_refl.
  - destruct (Ascii.eqb d c); [lia|]. specialize (IH (i + 1)%Z). lia.
Qed.

Lemma fullname_isFullname scriptName labelName :
  Label_isFullname (Label_fullname scriptName labelName)
  = match scriptName with
    | EmptyString => false
    | String a _ => negb (Ascii.eqb a "/")
    end.
Proof.
  unfold Label_isFullname, Label_fullname, JsString.indexOf.
  destruct scriptName as [|a s]; simpl; [done|].
  destruct (Ascii.eqb a "/"); [done|].
  pose proof (indexOf_go_found "/" labelName s 1) as H.
  change ("/" +:+ labelName) with (String "/" labelName).
  change (0 + 1)%Z with 1%Z. apply Z.ltb_lt. lia.
Qed.


(** X11. The full name of a label is recognised as a full name exactly when
    the script name is not empty and does not begin with the separator;
    whether the script name or the label name contain further separators
    does not matter. *)
Theorem fullname_recognised_unless_script_name_starts_with_separator
        (scriptName labelName : string) :
  Label_isFullname (Label_fullname scriptName labelName) = true
  <-> exists a rest, scriptName = String a rest /\ a <> "/"%char.
Proof.
  rewrite fullname_isFullname. destruct scriptName as [|a s].
  - split; [done|]. by intros (a & rest & H & _).
  - destruct (Ascii.eqb_spec a "/") as [->|Hne]; simpl.
    + split; [done|]. intros (a & rest & H & Ha). by injection H as <- _.
    + split; [|done]. intros _. by exists a, s.
Qed.

Section Registering.

Variable classOf : CmdRef -> CommandClass.

Hypothesis quiet : quiet_registration classOf.

Lemma notify_registered_frame prog : forall w,
  let e' := fst (notify_registered classOf prog w) in
  sequences e' = sequences (fst w)
  /\ labelTable e' = labelTable (fst w)
  /\ players e' = players (fst w)
  /\ player e' = player (fst w)
  /\ callStack e' = callStack (fst w)
  /\ commandFinished e' = commandFinished (fst w).
Proof.
  induction prog as [|c prog IH]; intros w; [done|].
  change (notify_registered classOf (c :: prog) w)
    with (notify_registered classOf prog (call classOf MOnRegistered (Fetched c) w)).
  destruct (IH (call classOf MOnRegistered (Fetched c) w)) as (I1 & I2 & I3 & I4 & I5 & I6).
  destruct (quiet c (fst w)) as (Q1 & Q2 & Q3 & Q4 & Q5 & Q6).
  cbv zeta in *. rewrite I1, I2, I3, I4, I5, I6. by cbn.
Qed.

(** The fields of the engine after [register]. *)
Lemma register_fields commands scriptName e tr :
  let e' := fst (Engine_register classOf commands scriptName (e, tr)) in
  Engine_program scriptName e' = Engine_program scriptName e ++ commands
  /\ (forall other, other <> scriptName -> sequences e' !! other = sequences e !! other)
  /\ (exists sq, sequences e' !! scriptName = Some sq
        /\ program sq = Some (Engine_program scriptName e ++ commands)
        /\ seq_scriptName sq
           = match sequences e !! scriptName with
             | Some old => seq_scriptName old
             | None => scriptName
             end)
  /\ labelTable e'
     = index_labels classOf scriptName (Engine_program scriptName e ++ commands) 0
         (labelTable e)
  /\ player e' = Some (default (length (players e)) (player e))
  /\ players e' = match player e with
                  | Some _ => players e
                  | None => players e ++ [Player_reset (Some scriptName) 0]
                  end
  /\ callStack e' = callStack e
  /\ commandFinished e' = commandFinished e.
Proof.
  unfold Engine_register.
  set (e1 := match sequences e !! scriptName with
             | None => set_sequences (<[scriptName := mkSequence scriptName None]> (sequences e)) e
             | Some _ => e
             end).
  set (e2 := match player e1 with
             | None => let '(r, e') := new_Player (sequence_ref scriptName e1) 0 e1 in
                       set_player (Some r) e'
             | Some _ => e1
             end).
  set (e3 := set_sequences (alter (Sequence_register commands) scriptName (sequences e2)) e2).
  assert (H1 : sequence_ref scriptName e1 = Some scriptName).
  { unfold sequence_ref. subst e1. destruct (sequences e !! scriptName) eqn:E.
    - by rewrite E.
    - simpl. by rewrite lookup_insert_eq. }
  assert (H2 : sequences e2 = sequences e1 /\ callStack e2 = callStack e
               /\ commandFinished e2 = commandFinished e /\ labelTable e2 = labelTable e
               /\ player e2 = Some (default (length (players e)) (player e))
               /\ players e2 = match player e with
                               | Some _ => players e
                               | None => players e ++ [Player_reset (Some scriptName) 0]
                               end).
  { assert (F : player e1 = player e /\ players e1 = players e /\ callStack e1 = callStack e
                /\ commandFinished e1 = commandFinished e /\ labelTable e1 = labelTable e).
    { subst e1. by destruct (sequences e !! scriptName). }
    destruct F as (F1 & F2 & F3 & F4 & F5). subst e2. rewrite F1.
    destruct (player e) as [r|]; simpl.
    - by rewrite F2, F3, F4, F5.
    - by rewrite H1, F2, F3, F4, F5. }
  destruct H2 as (S2 & C2 & CF2 & L2 & P2 & PS2).
  assert (H3 : Engine_program scriptName e3 = Engine_program scriptName e ++ commands).
  { unfold Engine_program. subst e3. simpl. rewrite lookup_alter_eq, S2. subst e1.
    destruct (sequences e !! scriptName) as [sq|] eqn:E; simpl.
    - by rewrite E.
    - by rewrite lookup_insert_eq. }
  cbv zeta.
  destruct (notify_registered_frame (Engine_program scriptName e3)
              (set_labelTable (index_labels classOf scriptName (Engine_program scriptName e3) 0
                                 (labelTable e3)) e3, tr))
    as (N1 & N2 & N3 & N4 & N5 & N6).
  cbv zeta in N1, N2, N3, N4, N5, N6. cbn [fst] in N1, N2, N3, N4, N5, N6.
  split; [|split; [|split; [|split; [|split; [|split; [|split]]]]]].
  - unfold Engine_program at 1. rewrite N1. exact H3.
  - intros other Hne. rewrite N1. subst e3. simpl. rewrite lookup_alter_ne by done.
    rewrite S2. subst e1. destruct (sequences e !! scriptName); [done|].
    simpl. by rewrite lookup_insert_ne.
  - rewrite N1. subst e3. simpl. rewrite lookup_alter_eq, S2. subst e1.
    unfold Engine_program.
    destruct (sequences e !! scriptName) as [sq|] eqn:E; simpl.
    + rewrite E. by eexists.
    + rewrite lookup_insert_eq. by eexists.
  - rewrite N2. simpl. by rewrite H3, L2.
  - rewrite N4. exact P2.
  - rewrite N3. exact PS2.
  - rewrite N5. exact C2.
  - rewrite N6. exact CF2.
Qed.





(** X14. Registering commands does not revive a halted engine: an engine
    that rests on a [CommandHalt] with an empty call stack still does so
    after [register], whatever is registered and under whatever name, and
    every later [run] calls [update] on that halt command and nothing
    else. *)
Theorem register_does_not_revive_a_halted_engine
        (commands : list CmdRef) (scriptName : string) (e : Engine) (tr : list Event)
        (halt : CurrentCommand) (fuel n : nat) :
  halted_for_good classOf e halt ->
  let w := Engine_register classOf commands scriptName (e, tr) in
  halted_for_good classOf (fst w) halt
  /\ Engine_runs classOf (S fuel) n w
     = Returned (fst w, snd w ++ replicate n (Call MUpdate halt)).
Proof.
  intros (Hcs & (pl & Ha & Hcur) & Hhalt) w.
  destruct (register_fields commands scriptName e tr)
    as (_ & _ & _ & _ & Hpl & Hps & Hcs' & Hcf).
  fold w in Hpl, Hps, Hcs', Hcf.
  destruct (active_player_inv e pl Ha) as (r & Hr & Hp).
  rewrite Hr in Hpl, Hps. simpl in Hpl.
  assert (Hg : halted_for_good classOf (fst w) halt).
  { split; [by rewrite Hcs'|]. split.
    - exists pl. split; [|done]. unfold active_player. by rewrite Hpl, Hps, Hp.
    - destruct Hhalt as [Hn|(h & -> & Hcls & Hfin)]; [by left|right].
      exists h. split; [done|]. split; [done|].
      unfold cmd_isFinished in *. rewrite Hcls in *. simpl in *. by rewrite Hcf. }
  split; [exact Hg|].
  rewrite (surjective_pairing w) at 1.
  exact (halted_runs classOf (fst w) halt fuel n (snd w) Hg).
Qed.

End Registering.

(** ** Scripts laid out call by call *)

Module LayoutFacts.

Import JsString Parser.

Lemma length_app a b : String.length (a +:+ b) = String.length a + String.length b.
Proof. induction a as [|c a IH]; simpl; [done|]. by rewrite IH. Qed.

Lemma app_assoc_s a b c : (a +:+ b) +:+ c = a +:+ b +:+ c.
Proof.
  induction a as [|d a IH]; [done|].
  change (String d ((a +:+ b) +:+ c) = String d (a +:+ b +:+ c)). by rewrite IH.
Qed.

Lemma app_empty_r a : a +:+ EmptyString = a.
Proof.
  induction a as [|d a IH]; [done|].
  change (String d (a +:+ EmptyString) = String d a). by rewrite IH.
Qed.

Lemma charAt_app pre s i : charAt (pre +:+ s) (String.length pre + i) = charAt s i.
Proof. induction pre as [|c pre IH]; [done|exact IH]. Qed.

Lemma charAt_app0 pre s : charAt (pre +:+ s) (String.length pre) = charAt s 0.
Proof. rewrite <- (charAt_app pre s 0). by rewrite Nat.add_0_r. Qed.

Lemma drop_app pre s : drop (String.length pre) (pre +:+ s) = s.
Proof. induction pre as [|c pre IH]; [by destruct s|exact IH]. Qed.

Lemma substring_prefix s suf : substring 0 (String.length s) (s +:+ suf) = s.
Proof.
  induction s as [|c s IH]; [by destruct suf|].
  change (String c (substring 0 (String.length s) (s +:+ suf)) = String c s).
  by rewrite IH.
Qed.

Lemma substring_app pre s suf :
  substring (String.length pre) (String.length s) (pre +:+ s +:+ suf) = s.
Proof.
  induction pre as [|c pre IH]; [exact (substring_prefix s suf)|exact IH].
Qed.

Lemma substr_app pre s suf :
  substr (pre +:+ s +:+ suf) (String.length pre) (Z.of_nat (String.length s)) = s.
Proof.
  unfold substr. destruct s as [|c s]; [done|].
  destruct (Z.leb_spec (Z.of_nat (String.length (String c s))) 0) as [H|_];
    [simpl in H; lia|].
  rewrite Nat2Z.id. apply substring_app.
Qed.

Lemma skip_whitespace_go_run sep : forall suf p line,
  all_chars is_separator sep = true ->
  starts_with is_separator suf = false ->
  skip_whitespace_go (sep +:+ suf) p line
  = (p + String.length sep, line + newlines sep).
Proof.
  induction sep as [|c sep IH]; intros suf p line Hsep Hsuf.
  - change (skip_whitespace_go suf p line = (p + 0, line + 0)).
    rewrite !Nat.add_0_r. destruct suf as [|d suf]; [done|].
    simpl in Hsuf. unfold is_separator in Hsuf. cbn [skip_whitespace_go]. by rewrite Hsuf.
  - simpl in Hsep. apply andb_true_iff in Hsep as [Hc Hsep].
    unfold is_separator in Hc.
    change (String c sep +:+ suf) with (String c (sep +:+ suf)).
    cbn [skip_whitespace_go]. rewrite Hc.
    rewrite (IH suf _ _ Hsep Hsuf). cbn [String.length newlines].
    destruct (Ascii.eqb c newline); f_equal; lia.
Qed.

Lemma skip_whitespace_run pre sep suf line :
  all_chars is_separator sep = true ->
  starts_with is_separator suf = false ->
  skip_whitespace (pre +:+ sep +:+ suf) (String.length pre) line
  = (String.length pre + String.length sep, line + newlines sep).
Proof.
  intros Hsep Hsuf. unfold skip_whitespace. rewrite drop_app.
  by apply skip_whitespace_go_run.
Qed.

Lemma indexOf_go_run c s suf : forall i,
  all_chars (fun d => negb (Ascii.eqb d c)) s = true ->
  indexOf_go c (s +:+ String c suf) i = (i + Z.of_nat (String.length s))%Z.
Proof.
  induction s as [|d s IH]; intros i Hs.
  - change (indexOf_go c (String c suf) i = (i + 0)%Z).
    cbn [indexOf_go]. rewrite Ascii.eqb_refl. lia.
  - simpl in Hs. apply andb_true_iff in Hs as [Hd Hs]. apply negb_true_iff in Hd.
    change (String d s +:+ String c suf) with (String d (s +:+ String c suf)).
    cbn [indexOf_go]. rewrite Hd, (IH _ Hs). cbn [String.length]. lia.
Qed.

Lemma indexOfFrom_run c pre s suf :
  all_chars (fun d => negb (Ascii.eqb d c)) s = true ->
  indexOfFrom c (pre +:+ s +:+ String c suf) (String.length pre)
  = Z.of_nat (String.length pre + String.length s).
Proof.
  intros Hs. unfold indexOfFrom. rewrite drop_app, (indexOf_go_run c s suf _ Hs). lia.
Qed.

Lemma scan_number_go_run literal : forall suf i,
  all_chars is_numeric literal = true ->
  starts_with is_numeric suf = false ->
  scan_number_go (literal +:+ suf) i = i + String.length literal.
Proof.
  induction literal as [|c literal IH]; intros suf i Hl Hsuf.
  - change (scan_number_go suf i = i + 0).
    rewrite Nat.add_0_r. destruct suf as [|d suf]; [done|].
    simpl in Hsuf. unfold is_numeric in Hsuf. cbn [scan_number_go]. by rewrite Hsuf.
  - simpl in Hl. apply andb_true_iff in Hl as [Hc Hl]. unfold is_numeric in Hc.
    change (String c literal +:+ suf) with (String c (literal +:+ suf)).
    cbn [scan_number_go]. rewrite Hc, (IH suf _ Hl Hsuf). cbn [String.length]. lia.
Qed.

Lemma scan_number_run pre literal suf :
  all_chars is_numeric literal = true ->
  starts_with is_numeric suf = false ->
  scan_number (pre +:+ literal +:+ suf) (String.length pre)
  = String.length pre + String.length literal.
Proof.
  intros Hl Hsuf. unfold scan_number. rewrite drop_app. by apply scan_number_go_run.
Qed.

(** The character classes are disjoint where the parser relies on it. *)
Lemma numeric_is_no_delimiter c :
  is_numeric c = true ->
  is_separator c = false
  /\ bool_decide (Some c = Some ")"%char) = false
  /\ bool_decide (Some c = Some quote) = false.
Proof.
  destruct c as [[] [] [] [] [] [] [] []]; vm_compute; intros H;
    first [discriminate H | by repeat split].
Qed.

Lemma letter_is_no_delimiter c :
  is_letter c = true ->
  is_separator c = false
  /\ Ascii.eqb c "/" = false
  /\ bool_decide (Some c = Some ")"%char) = false.
Proof.
  intros H.
  destruct (ParserFacts.letter_or_slash_starts_no_argument c (or_introl H))
    as (H1 & _ & _ & H4).
  split; [exact H4|]. split; [|exact H1].
  destruct (Ascii.eqb_spec c "/") as [->|_]; [by vm_compute in H|done].
Qed.

Section Passes.

Context {Command : Type}.
Variable table : gmap string (list Arg -> Command).
Variable filename : string.

Lemma loop_pass script fuel (m m' : @Locals Command) :
  p m < String.length script ->
  step table script filename fuel m = Returned m' ->
  loop table script filename (S fuel) m = loop table script filename fuel m'.
Proof.
  intros Hp Hs. rewrite ParserFacts.parse_loop_S. apply Nat.ltb_lt in Hp.
  by rewrite Hp, Hs.
Qed.

Lemma loop_throw script fuel (m : @Locals Command) x :
  p m < String.length script ->
  step table script filename fuel m = Thrown x ->
  loop table script filename (S fuel) m = Thrown x.
Proof.
  intros Hp Hs. rewrite ParserFacts.parse_loop_S. apply Nat.ltb_lt in Hp.
  by rewrite Hp, Hs.
Qed.

Lemma loop_done script fuel (m : @Locals Command) :
  String.length script <= p m ->
  loop table script filename (S fuel) m = Returned (commands m).
Proof.
  intros Hp. rewrite ParserFacts.parse_loop_S. apply Nat.ltb_ge in Hp. by rewrite Hp.
Qed.

Lemma inside pre c suf : String.length pre < String.length (pre +:+ String c suf).
Proof. rewrite length_app. simpl. lia. Qed.

(** The separators between calls: two passes, or none when there are no
    separators. *)
Lemma pass_separators pre sep suf cmds cur ln fuel :
  all_chars is_separator sep = true ->
  starts_with is_separator suf = false ->
  loop table (pre +:+ sep +:+ suf) filename (separator_passes sep + fuel)
       (mkLocals cmds cur (String.length pre) (Some St_default) [] ln)
  = loop table (pre +:+ sep +:+ suf) filename fuel
       (mkLocals cmds cur (String.length pre + String.length sep) (Some St_default) []
                 (ln + newlines sep)).
Proof.
  intros Hsep Hsuf. destruct sep as [|c sep].
  { cbn [separator_passes String.length newlines plus]. by rewrite !Nat.add_0_r. }
  pose proof Hsep as Hc. simpl in Hc. apply andb_true_iff in Hc as [Hc _].
  unfold is_separator in Hc.
  change (separator_passes (String c sep) + fuel) with (S (S fuel)).
  set (script := pre +:+ String c sep +:+ suf).
  assert (Hin : String.length pre < String.length script) by apply inside.
  rewrite (loop_pass script (S fuel) _
             (mkLocals cmds cur (String.length pre) (Some St_whitespace) [St_default] ln)).
  - rewrite (loop_pass script fuel _
               (mkLocals cmds cur (String.length pre + String.length (String c sep))
                         (Some St_default) [] (ln + newlines (String c sep)))).
    + done.
    + exact Hin.
    + unfold step. cbn [state p line]. subst script.
      by rewrite (skip_whitespace_run pre (String c sep) suf ln Hsep Hsuf).
  - exact Hin.
  - unfold step. cbn [state p]. subst script. rewrite charAt_app0.
    change (charAt (String c sep +:+ suf) 0) with (Some c). by rewrite Hc.
Qed.

End Passes.

End LayoutFacts.

Module RoundTrip.

Import JsString Parser LayoutFacts.

Lemma starts_with_app f a b :
  starts_with f (a +:+ b) = match a with
                            | EmptyString => starts_with f b
                            | _ => starts_with f a
                            end.
Proof. by destruct a. Qed.

Lemma charAt_app2 pre sep s :
  charAt (pre +:+ sep +:+ s) (String.length pre + String.length sep) = charAt s 0.
Proof. by rewrite <- app_assoc_s, <- length_app, charAt_app0. Qed.

Lemma skip_whitespace_stay pre c suf ln :
  is_separator c = false ->
  skip_whitespace (pre +:+ String c suf) (String.length pre) ln = (String.length pre, ln).
Proof.
  intros Hc. unfold skip_whitespace. rewrite drop_app. cbn [skip_whitespace_go].
  unfold is_separator in Hc. by rewrite Hc.
Qed.

Section Calls.

Context {Command : Type}.
Variable table : gmap string (list Arg -> Command).
Variable filename : string.

(** The name of a call, up to and including the opening parenthesis. *)
Lemma pass_name pre name suf cmds cur ln fuel :
  wf_name name = true ->
  loop table (pre +:+ name +:+ String "(" suf) filename (2 + fuel)
       (mkLocals cmds cur (String.length pre) (Some St_default) [] ln)
  = loop table (pre +:+ name +:+ String "(" suf) filename fuel
       (mkLocals cmds (Some [ArgString name]) (String.length pre + String.length name + 1)
                 (Some St_argument) [St_function; St_default] ln).
Proof.
  unfold wf_name. intros Hwf.
  apply andb_true_iff in Hwf as [Hwf Htrim]. apply andb_true_iff in Hwf as [Hletter Hparen].
  apply String.eqb_eq in Htrim.
  destruct name as [|c name]; [done|]. simpl in Hletter.
  destruct (letter_is_no_delimiter c Hletter) as (Hsep & Hslash & Hclose).
  set (script := pre +:+ String c name +:+ String "(" suf).
  assert (Hin : String.length pre < String.length script) by apply inside.
  assert (Hat : charAt script (String.length pre) = Some c).
  { subst script. by rewrite charAt_app0. }
  change (2 + fuel) with (S (S fuel)).
  rewrite (loop_pass table filename script (S fuel) _
             (mkLocals cmds cur (String.length pre) (Some St_function) [St_default] ln)).
  - rewrite (loop_pass table filename script fuel _
               (mkLocals cmds (Some [ArgString (String c name)])
                         (String.length pre + String.length (String c name) + 1)
                         (Some St_argument) [St_function; St_default] ln)).
    + done.
    + exact Hin.
    + unfold step. cbn [state p line].
      assert (Hskip : skip_whitespace script (String.length pre) ln = (String.length pre, ln)).
      { subst script. by apply skip_whitespace_stay. }
      rewrite Hskip. cbn [set_pos p state stateStack commands currentCommand line].
      rewrite Hat, Hclose.
      assert (Hidx : indexOfFrom "(" script (String.length pre)
                     = Z.of_nat (String.length pre + String.length (String c name))).
      { subst script. by apply indexOfFrom_run. }
      rewrite Hidx.
      replace (Z.of_nat (String.length pre + String.length (String c name))
               - Z.of_nat (String.length pre))%Z
        with (Z.of_nat (String.length (String c name))) by lia.
      assert (Hsub : substr script (String.length pre)
                       (Z.of_nat (String.length (String c name))) = String c name).
      { subst script. apply substr_app. }
      rewrite Hsub, Htrim. unfold push_to, set_state.
      cbn [commands currentCommand p state stateStack line]. do 2 f_equal. lia.
  - exact Hin.
  - unfold step. cbn [state p]. rewrite Hat. unfold is_separator in Hsep.
    rewrite Hsep, Hslash, Hletter. cbn [andb].
    by destruct (charAt script (S (String.length pre))).
Qed.

Lemma quote_is_no_delimiter :
  is_separator quote = false
  /\ bool_decide (Some quote = Some ")"%char) = false
  /\ is_numeric quote = false.
Proof. by vm_compute. Qed.

(** A string argument with the separators before it. *)
Lemma pass_string_argument pre sep s suf cmds acc stk ln fuel :
  all_chars is_separator sep = true ->
  all_chars (fun c => negb (Ascii.eqb c quote)) s = true ->
  loop table (pre +:+ sep +:+ String quote (s +:+ String quote suf)) filename (2 + fuel)
       (mkLocals cmds (Some acc) (String.length pre) (Some St_argument) stk ln)
  = loop table (pre +:+ sep +:+ String quote (s +:+ String quote suf)) filename fuel
       (mkLocals cmds (Some (acc ++ [ArgString s]))
                 (String.length pre + String.length sep + String.length s + 2)
                 (Some St_argument) stk (ln + newlines sep)).
Proof.
  intros Hsep Hs. destruct quote_is_no_delimiter as (Qsep & Qclose & _).
  set (script := pre +:+ sep +:+ String quote (s +:+ String quote suf)).
  assert (Hlen : String.length script
                 = String.length pre + String.length sep + String.length s + 2
                   + String.length suf).
  { subst script. rewrite !length_app. cbn [String.length]. rewrite length_app.
    cbn [String.length]. lia. }
  assert (Hscript : script = (pre +:+ sep +:+ String quote EmptyString)
                             +:+ s +:+ String quote suf).
  { subst script. by rewrite !app_assoc_s. }
  assert (Hpre2 : String.length (pre +:+ sep +:+ String quote EmptyString)
                  = S (String.length pre + String.length sep)).
  { rewrite !length_app. cbn [String.length]. lia. }
  change (2 + fuel) with (S (S fuel)).
  rewrite (loop_pass table filename script (S fuel) _
             (mkLocals cmds (Some acc) (String.length pre + String.length sep)
                       (Some St_argument_string) (St_argument :: stk) (ln + newlines sep))).
  - rewrite (loop_pass table filename script fuel _
               (mkLocals cmds (Some (acc ++ [ArgString s]))
                         (String.length pre + String.length sep + String.length s + 2)
                         (Some St_argument) stk (ln + newlines sep))).
    + done.
    + cbn [p]. lia.
    + unfold step. cbn [state p line]. cbv zeta.
      assert (Hidx : indexOfFrom quote script (S (String.length pre + String.length sep))
                     = Z.of_nat (S (String.length pre + String.length sep) + String.length s)).
      { rewrite Hscript, <- Hpre2. by apply indexOfFrom_run. }
      rewrite Hidx.
      replace (Z.of_nat (S (String.length pre + String.length sep) + String.length s)
               - Z.of_nat (S (String.length pre + String.length sep)))%Z
        with (Z.of_nat (String.length s)) by lia.
      assert (Hsub : substr script (S (String.length pre + String.length sep))
                       (Z.of_nat (String.length s)) = s).
      { rewrite Hscript, <- Hpre2. apply substr_app. }
      rewrite Hsub. unfold push_arg. cbn [currentCommand commands p state stateStack line].
      unfold pop_state, set_pos, set_state.
      cbn [currentCommand commands p state stateStack line]. do 2 f_equal. lia.
  - cbn [p]. lia.
  - unfold step. cbn [state p line]. subst script.
    rewrite (skip_whitespace_run pre sep _ ln Hsep) by exact Qsep.
    cbn [set_pos p state stateStack commands currentCommand line].
    rewrite charAt_app2. change (charAt (String quote _) 0) with (Some quote).
    rewrite Qclose. by rewrite bool_decide_eq_true_2.
Qed.

(** A numeric argument with the separators before it. *)
Lemma pass_number_argument pre sep literal suf cmds acc stk ln fuel :
  all_chars is_separator sep = true ->
  starts_with is_numeric literal = true ->
  all_chars is_numeric literal = true ->
  starts_with is_numeric suf = false ->
  loop table (pre +:+ sep +:+ literal +:+ suf) filename (2 + fuel)
       (mkLocals cmds (Some acc) (String.length pre) (Some St_argument) stk ln)
  = loop table (pre +:+ sep +:+ literal +:+ suf) filename fuel
       (mkLocals cmds (Some (acc ++ [ArgNumber literal]))
                 (String.length pre + String.length sep + String.length literal)
                 (Some St_argument) stk (ln + newlines sep)).
Proof.
  intros Hsep Hfirst Hlit Hsuf.
  destruct literal as [|c literal]; [done|]. simpl in Hfirst.
  destruct (numeric_is_no_delimiter c Hfirst) as (Nsep & Nclose & Nquote).
  set (script := pre +:+ sep +:+ String c literal +:+ suf).
  assert (Hlen : String.length script
                 = String.length pre + String.length sep + String.length (String c literal)
                   + String.length suf).
  { subst script. rewrite !length_app. lia. }
  assert (Hscript : script = (pre +:+ sep) +:+ String c literal +:+ suf).
  { subst script. by rewrite !app_assoc_s. }
  change (2 + fuel) with (S (S fuel)).
  rewrite (loop_pass table filename script (S fuel) _
             (mkLocals cmds (Some acc) (String.length pre + String.length sep)
                       (Some St_argument_number) (St_argument :: stk) (ln + newlines sep))).
  - rewrite (loop_pass table filename script fuel _
               (mkLocals cmds (Some (acc ++ [ArgNumber (String c literal)]))
                         (String.length pre + String.length sep
                          + String.length (String c literal))
                         (Some St_argument) stk (ln + newlines sep))).
    + done.
    + cbn [p]. cbn [String.length] in Hlen. lia.
    + unfold step. cbn [state p line]. cbv zeta.
      assert (Hscan : scan_number script (String.length pre + String.length sep)
                      = String.length pre + String.length sep
                        + String.length (String c literal)).
      { rewrite Hscript, <- length_app. by apply scan_number_run. }
      rewrite Hscan.
      replace (Z.of_nat (String.length pre + String.length sep
                         + String.length (String c literal))
               - Z.of_nat (String.length pre + String.length sep))%Z
        with (Z.of_nat (String.length (String c literal))) by lia.
      assert (Hsub : substr script (String.length pre + String.length sep)
                       (Z.of_nat (String.length (String c literal))) = String c literal).
      { rewrite Hscript, <- length_app. apply substr_app. }
      by rewrite Hsub.
  - cbn [p]. cbn [String.length] in Hlen. lia.
  - unfold step. cbn [state p line]. subst script.
    rewrite (skip_whitespace_run pre sep _ ln Hsep) by exact Nsep.
    cbn [set_pos p state stateStack commands currentCommand line].
    rewrite charAt_app2. change (charAt (String c literal +:+ suf) 0) with (Some c).
    rewrite Nclose, Nquote. unfold is_numeric in Hfirst. by rewrite Hfirst.
Qed.

(** The separators before the closing parenthesis and the parenthesis
    itself, for a name the table knows and for one it does not. *)
Lemma pass_close pre close suf cmds name args ln fuel :
  all_chars is_separator close = true ->
  let script := pre +:+ close +:+ String ")" suf in
  let m := mkLocals cmds (Some (ArgString name :: args)) (String.length pre)
                    (Some St_argument) [St_function; St_default] ln in
  (forall factory, table !! name = Some factory ->
     loop table script filename (2 + fuel) m
     = loop table script filename fuel
         (mkLocals (cmds ++ [factory args]) (Some args)
                   (String.length pre + String.length close + 1)
                   (Some St_default) [] (ln + newlines close)))
  /\ (table !! name = None ->
      loop table script filename (2 + fuel) m
      = Thrown (Error (unsupported_message filename (ln + newlines close) name))).
Proof.
  intros Hclose script m.
  assert (Hlen : String.length script
                 = String.length pre + String.length close + 1 + String.length suf).
  { subst script. rewrite !length_app. cbn [String.length]. lia. }
  assert (Hscript : script = (pre +:+ close) +:+ String ")" suf).
  { subst script. by rewrite !app_assoc_s. }
  assert (Hat : charAt script (String.length pre + String.length close) = Some ")"%char).
  { subst script. by rewrite charAt_app2. }
  assert (H1 : loop table script filename (2 + fuel) m
               = loop table script filename (S fuel)
                   (mkLocals cmds (Some (ArgString name :: args))
                             (String.length pre + String.length close)
                             (Some St_function) [St_default] (ln + newlines close))).
  { change (2 + fuel) with (S (S fuel)). apply loop_pass; [subst m; cbn [p]; lia|].
    unfold step. subst m. cbn [state p line]. subst script.
    rewrite (skip_whitespace_run pre close _ ln Hclose) by done.
    cbn [set_pos p state stateStack commands currentCommand line].
    rewrite Hat. by rewrite bool_decide_eq_true_2. }
  assert (Hskip : skip_whitespace script (String.length pre + String.length close)
                    (ln + newlines close)
                  = (String.length pre + String.length close, ln + newlines close)).
  { rewrite Hscript, <- length_app. by apply skip_whitespace_stay. }
  split.
  - intros factory Hf. rewrite H1. apply loop_pass; [cbn [p]; lia|].
    unfold step. cbn [state p line]. rewrite Hskip.
    cbn [set_pos p state stateStack commands currentCommand line].
    rewrite Hat, bool_decide_eq_true_2 by done.
    cbn [head propertyKey tail]. rewrite Hf. unfold pop_state, set_state.
    cbn [commands currentCommand p state stateStack line]. do 2 f_equal. lia.
  - intros Hf. rewrite H1. apply loop_throw; [cbn [p]; lia|].
    unfold step. cbn [state p line]. rewrite Hskip.
    cbn [set_pos p state stateStack commands currentCommand line].
    rewrite Hat, bool_decide_eq_true_2 by done.
    cbn [head propertyKey tail]. by rewrite Hf.
Qed.

Lemma separator_is_not_numeric c : is_separator c = true -> is_numeric c = false.
Proof.
  intros Hs. destruct (is_numeric c) eqn:Hn; [|done].
  destruct (numeric_is_no_delimiter c Hn) as (H & _). congruence.
Qed.

Lemma separators_then_parenthesis close suf :
  all_chars is_separator close = true ->
  starts_with is_numeric (close +:+ String ")" suf) = false.
Proof.
  intros Hclose. destruct close as [|c close]; [done|].
  simpl in Hclose. apply andb_true_iff in Hclose as [Hc _].
  by apply separator_is_not_numeric.
Qed.

(** The arguments of a call. *)
Lemma pass_args : forall args pre suf cmds acc stk ln fuel,
  wf_args args = true ->
  starts_with is_numeric suf = false ->
  loop table (pre +:+ render_args args +:+ suf) filename (2 * length args + fuel)
       (mkLocals cmds (Some acc) (String.length pre) (Some St_argument) stk ln)
  = loop table (pre +:+ render_args args +:+ suf) filename fuel
       (mkLocals cmds (Some (acc ++ map snd args))
                 (String.length pre + String.length (render_args args))
                 (Some St_argument) stk (ln + args_newlines args)).
Proof.
  induction args as [|[sep a] rest IH]; intros pre suf cmds acc stk ln fuel Hwf Hsuf.
  - cbn [length render_args map args_newlines String.length Nat.mul plus].
    by rewrite app_nil_r, !Nat.add_0_r.
  - cbn [wf_args] in Hwf.
    apply andb_true_iff in Hwf as [Hwf Hrest]. apply andb_true_iff in Hwf as [Hwf Hnext].
    apply andb_true_iff in Hwf as [Hsep Harg].
    replace (2 * length ((sep, a) :: rest) + fuel) with (2 + (2 * length rest + fuel))
      by (cbn [length]; lia).
    cbn [render_args map args_newlines snd].
    assert (E1 : pre +:+ (sep +:+ render_arg a +:+ render_args rest) +:+ suf
                 = pre +:+ sep +:+ render_arg a +:+ (render_args rest +:+ suf))
      by (by rewrite !app_assoc_s).
    assert (E2 : pre +:+ sep +:+ render_arg a +:+ (render_args rest +:+ suf)
                 = (pre +:+ sep +:+ render_arg a) +:+ render_args rest +:+ suf)
      by (by rewrite !app_assoc_s).
    assert (L2 : String.length (pre +:+ sep +:+ render_arg a)
                 = String.length pre + String.length sep + String.length (render_arg a))
      by (rewrite !length_app; lia).
    assert (L3 : String.length (sep +:+ render_arg a +:+ render_args rest)
                 = String.length sep + String.length (render_arg a)
                   + String.length (render_args rest))
      by (rewrite !length_app; lia).
    rewrite E1, L3.
    destruct a as [s|literal].
    + assert (E3 : render_arg (ArgString s) +:+ (render_args rest +:+ suf)
                   = String quote (s +:+ String quote (render_args rest +:+ suf))).
      { cbn [render_arg].
        change (String quote ((s +:+ String quote EmptyString) +:+ render_args rest +:+ suf)
                = String quote (s +:+ String quote (render_args rest +:+ suf))).
        by rewrite app_assoc_s. }
      assert (L4 : String.length (render_arg (ArgString s)) = String.length s + 2).
      { cbn [render_arg String.length]. rewrite length_app. cbn [String.length]. lia. }
      rewrite E3.
      rewrite (pass_string_argument pre sep s _ cmds acc stk ln _ Hsep Harg).
      rewrite <- E3, E2.
      replace (String.length pre + String.length sep + String.length s + 2)
        with (String.length (pre +:+ sep +:+ render_arg (ArgString s)))
        by (rewrite L2, L4; lia).
      rewrite (IH _ suf cmds _ stk _ fuel Hrest Hsuf).
      rewrite L2, L4, <- app_assoc. cbn [app]. do 2 f_equal; lia.
    + cbn [wf_arg] in Harg. apply andb_true_iff in Harg as [Hfirst Hlit].
      apply negb_true_iff in Hnext.
      assert (Hfollow : starts_with is_numeric (render_args rest +:+ suf) = false).
      { rewrite starts_with_app. by destruct (render_args rest). }
      cbn [render_arg] in *.
      rewrite (pass_number_argument pre sep literal _ cmds acc stk ln _
                 Hsep Hfirst Hlit Hfollow).
      rewrite E2.
      replace (String.length pre + String.length sep + String.length literal)
        with (String.length (pre +:+ sep +:+ literal)) by (rewrite L2; lia).
      rewrite (IH _ suf cmds _ stk _ fuel Hrest Hsuf).
      rewrite L2, <- app_assoc. cbn [app]. do 2 f_equal; lia.
Qed.

Lemma wf_name_starts name :
  wf_name name = true -> starts_with is_separator name = false.
Proof.
  unfold wf_name. intros Hwf.
  apply andb_true_iff in Hwf as [Hwf _]. apply andb_true_iff in Hwf as [Hletter _].
  destruct name as [|c name]; [done|]. simpl in Hletter.
  by destruct (letter_is_no_delimiter c Hletter) as (Hsep & _).
Qed.

(** A call up to and including its last argument. *)
Lemma pass_open c pre suf cmds cur ln fuel :
  all_chars is_separator (inv_lead c) = true ->
  wf_name (inv_name c) = true ->
  wf_args (inv_args c) = true ->
  starts_with is_numeric suf = false ->
  loop table (pre +:+ render_open c +:+ suf) filename (open_passes c + fuel)
       (mkLocals cmds cur (String.length pre) (Some St_default) [] ln)
  = loop table (pre +:+ render_open c +:+ suf) filename fuel
       (mkLocals cmds (Some (ArgString (inv_name c) :: arguments c))
                 (String.length pre + String.length (render_open c))
                 (Some St_argument) [St_function; St_default] (ln + open_newlines c)).
Proof.
  destruct c as [lead name args close]. unfold render_open, open_passes, open_newlines,
    arguments. cbn [inv_lead inv_name inv_args inv_close].
  intros Hlead Hname Hargs Hsuf.
  set (A := render_args args).
  assert (E1 : pre +:+ (lead +:+ name +:+ "(" +:+ A) +:+ suf
               = pre +:+ lead +:+ (name +:+ String "(" (A +:+ suf))).
  { rewrite !app_assoc_s. done. }
  assert (E2 : pre +:+ lead +:+ (name +:+ String "(" (A +:+ suf))
               = (pre +:+ lead) +:+ name +:+ String "(" (A +:+ suf))
    by (by rewrite !app_assoc_s).
  assert (E3 : (pre +:+ lead) +:+ name +:+ String "(" (A +:+ suf)
               = (pre +:+ lead +:+ name +:+ "(") +:+ A +:+ suf).
  { rewrite !app_assoc_s. done. }
  assert (L1 : String.length (pre +:+ lead +:+ name +:+ "(")
               = String.length pre + String.length lead + String.length name + 1).
  { rewrite !length_app. cbn [String.length]. lia. }
  assert (L2 : String.length (lead +:+ name +:+ "(" +:+ A)
               = String.length lead + String.length name + 1 + String.length A).
  { rewrite !length_app. cbn [String.length]. lia. }
  replace (separator_passes lead + 2 + 2 * length args + fuel)
    with (separator_passes lead + (2 + (2 * length args + fuel))) by lia.
  rewrite E1.
  rewrite (pass_separators table filename pre lead _ cmds cur ln _ Hlead).
  2:{ rewrite starts_with_app. pose proof (wf_name_starts name Hname).
      destruct name; [|done]. unfold wf_name in Hname. done. }
  rewrite E2, <- length_app.
  rewrite (pass_name (pre +:+ lead) name _ cmds cur _ _ Hname).
  rewrite E3.
  replace (String.length (pre +:+ lead) + String.length name + 1)
    with (String.length (pre +:+ lead +:+ name +:+ "("))
    by (rewrite L1, length_app; lia).
  rewrite (pass_args args _ suf cmds [ArgString name] _ _ fuel Hargs Hsuf).
  fold A. rewrite L1, L2. cbn [app]. do 2 f_equal; lia.
Qed.

(** A whole call whose name the table knows. *)
Lemma pass_invocation c factory pre suf cmds cur ln fuel :
  well_formed c = true ->
  table !! inv_name c = Some factory ->
  loop table (pre +:+ render_invocation c +:+ suf) filename (invocation_passes c + fuel)
       (mkLocals cmds cur (String.length pre) (Some St_default) [] ln)
  = loop table (pre +:+ render_invocation c +:+ suf) filename fuel
       (mkLocals (cmds ++ [factory (arguments c)]) (Some (arguments c))
                 (String.length pre + String.length (render_invocation c))
                 (Some St_default) [] (ln + separator_newlines c)).
Proof.
  unfold well_formed. intros Hwf Hf.
  apply andb_true_iff in Hwf as [Hwf Hclose]. apply andb_true_iff in Hwf as [Hwf Hargs].
  apply andb_true_iff in Hwf as [Hlead Hname].
  unfold render_invocation, invocation_passes, separator_newlines.
  assert (E1 : pre +:+ (render_open c +:+ inv_close c +:+ ")") +:+ suf
               = pre +:+ render_open c +:+ (inv_close c +:+ String ")" suf)).
  { rewrite !app_assoc_s. done. }
  assert (E2 : pre +:+ render_open c +:+ (inv_close c +:+ String ")" suf)
               = (pre +:+ render_open c) +:+ inv_close c +:+ String ")" suf)
    by (by rewrite !app_assoc_s).
  assert (L : String.length (render_open c +:+ inv_close c +:+ ")")
              = String.length (render_open c) + String.length (inv_close c) + 1).
  { rewrite !length_app. cbn [String.length]. lia. }
  replace (open_passes c + 2 + fuel) with (open_passes c + (2 + fuel)) by lia.
  rewrite E1.
  rewrite (pass_open c pre _ cmds cur ln _ Hlead Hname Hargs
             (separators_then_parenthesis _ _ Hclose)).
  rewrite E2, <- length_app.
  destruct (pass_close (pre +:+ render_open c) (inv_close c) suf cmds (inv_name c)
              (arguments c) (ln + open_newlines c) fuel Hclose) as [Hknown _].
  cbv zeta in Hknown. rewrite (Hknown factory Hf).
  rewrite L, length_app. do 2 f_equal; lia.
Qed.


(** A sequence of calls the table knows. *)
Lemma pass_script : forall calls built_commands pre suf cmds cur ln fuel,
  forallb well_formed calls = true ->
  Forall2 (built table) calls built_commands ->
  exists cur',
    loop table (pre +:+ render_script calls +:+ suf) filename (script_passes calls + fuel)
         (mkLocals cmds cur (String.length pre) (Some St_default) [] ln)
    = loop table (pre +:+ render_script calls +:+ suf) filename fuel
         (mkLocals (cmds ++ built_commands) cur'
                   (String.length pre + String.length (render_script calls))
                   (Some St_default) [] (ln + script_newlines calls)).
Proof.
  induction calls as [|c calls IH]; intros built_commands pre suf cmds cur ln fuel Hwf Hb.
  - apply Forall2_nil_inv_l in Hb as ->. exists cur.
    cbn [script_passes render_script script_newlines foldr String.length plus].
    by rewrite app_nil_r, !Nat.add_0_r.
  - apply Forall2_cons_inv_l in Hb as (cmd & more & (factory & Hf & ->) & Hb & ->).
    cbn [forallb] in Hwf. apply andb_true_iff in Hwf as [Hc Hwf].
    cbn [script_passes render_script script_newlines foldr].
    fold (script_passes calls). fold (script_newlines calls).
    assert (E1 : pre +:+ (render_invocation c +:+ render_script calls) +:+ suf
                 = pre +:+ render_invocation c +:+ (render_script calls +:+ suf))
      by (by rewrite !app_assoc_s).
    assert (E2 : pre +:+ render_invocation c +:+ (render_script calls +:+ suf)
                 = (pre +:+ render_invocation c) +:+ render_script calls +:+ suf)
      by (by rewrite !app_assoc_s).
    replace (invocation_passes c + script_passes calls + fuel)
      with (invocation_passes c + (script_passes calls + fuel)) by lia.
    rewrite E1, (pass_invocation c factory pre _ cmds cur ln _ Hc Hf).
    rewrite E2, <- length_app.
    destruct (IH more (pre +:+ render_invocation c) suf (cmds ++ [factory (arguments c)])
                (Some (arguments c)) (ln + separator_newlines c) fuel Hwf Hb)
      as (cur' & ->).
    exists cur'. rewrite !length_app, <- app_assoc. cbn [app]. do 2 f_equal; lia.
Qed.

Lemma known_calls_are_built calls :
  Forall (fun c => is_Some (table !! inv_name c)) calls ->
  exists built_commands, Forall2 (built table) calls built_commands.
Proof.
  induction 1 as [|c calls [factory Hf] _ [more IH]]; [by exists []|].
  exists (factory (arguments c) :: more). constructor; [by exists factory|done].
Qed.

Lemma indexOf_go_absent c s : forall i,
  all_chars (fun d => negb (Ascii.eqb d c)) s = true -> indexOf_go c s i = (-1)%Z.
Proof.
  induction s as [|d s IH]; intros i Hs; [done|].
  simpl in Hs. apply andb_true_iff in Hs as [Hd Hs]. apply negb_true_iff in Hd.
  cbn [indexOf_go]. rewrite Hd. by apply IH.
Qed.

(** X15. Parsing what was written out gives back the calls. A script that
    consists of well-formed calls whose names the table knows, with any
    separators before each name, each argument and each closing
    parenthesis, and separators only after the last call, is parsed into
    the commands the factories build from the arguments, in the order of
    the calls: string arguments without their quotes, numeric arguments
    as their literals. *)
Theorem parse_rendered_script
        (calls : list Invocation) (trail : string) (built_commands : list Command)
        (fuel : nat) :
  forallb well_formed calls = true ->
  all_chars is_separator trail = true ->
  Forall2 (built table) calls built_commands ->
  script_passes calls + separator_passes trail < fuel ->
  parse table (render_script calls +:+ trail) filename fuel = Returned built_commands.
Proof.
  intros Hwf Htrail Hb Hfuel.
  replace fuel with (script_passes calls
                     + (separator_passes trail
                        + S (fuel - script_passes calls - separator_passes trail - 1)))
    by lia.
  set (k := fuel - script_passes calls - separator_passes trail - 1).
  unfold parse, initial.
  destruct (pass_script calls built_commands EmptyString trail [] None 1
              (separator_passes trail + S k) Hwf Hb) as (cur' & H).
  change (EmptyString +:+ render_script calls +:+ trail)
    with (render_script calls +:+ trail) in H.
  change (String.length EmptyString) with 0 in H. rewrite H. clear H.
  cbn [app plus].
  rewrite <- (app_empty_r (render_script calls +:+ trail)), app_assoc_s.
  rewrite (pass_separators table filename (render_script calls) trail EmptyString
             built_commands cur' _ _ Htrail eq_refl).
  rewrite loop_done; [done|].
  cbn [p]. rewrite !length_app. cbn [String.length]. lia.
Qed.


(** X17. A call that the end of the script cuts off after its opening
    parenthesis or after one of its arguments is dropped without a
    diagnostic: the parser returns the commands of the calls before it,
    whether or not the table knows the name of the unfinished call. *)
Theorem parse_drops_unfinished_last_call
        (calls : list Invocation) (unfinished : Invocation)
        (built_commands : list Command) (fuel : nat) :
  forallb well_formed calls = true ->
  Forall2 (built table) calls built_commands ->
  all_chars is_separator (inv_lead unfinished) = true ->
  wf_name (inv_name unfinished) = true ->
  wf_args (inv_args unfinished) = true ->
  script_passes calls + open_passes unfinished < fuel ->
  parse table (render_script calls +:+ render_open unfinished) filename fuel
  = Returned built_commands.
Proof.
  intros Hwf Hb Hlead Hname Hargs Hfuel.
  replace fuel with (script_passes calls
                     + (open_passes unfinished
                        + S (fuel - script_passes calls - open_passes unfinished - 1)))
    by lia.
  set (k := fuel - script_passes calls - open_passes unfinished - 1).
  unfold parse, initial.
  destruct (pass_script calls built_commands EmptyString (render_open unfinished) [] None 1
              (open_passes unfinished + S k) Hwf Hb) as (cur' & H).
  change (EmptyString +:+ render_script calls +:+ render_open unfinished)
    with (render_script calls +:+ render_open unfinished) in H.
  change (String.length EmptyString) with 0 in H. rewrite H. clear H.
  cbn [app plus].
  rewrite <- (app_empty_r (render_script calls +:+ render_open unfinished)), app_assoc_s.
  rewrite (pass_open unfinished (render_script calls) EmptyString built_commands cur' _ _
             Hlead Hname Hargs eq_refl).
  rewrite loop_done; [done|].
  cbn [p]. rewrite !length_app. cbn [String.length]. lia.
Qed.

Lemma script_opens_with_letter (before : list Invocation) (lead word suf : string) :
  forallb well_formed before = true ->
  starts_with is_letter word = true ->
  exists c rest,
    render_script before +:+ lead +:+ word +:+ suf
    = first_lead before lead +:+ String c rest
    /\ is_letter c = true.
Proof.
  intros Hwf Hword. destruct before as [|c0 more].
  - destruct word as [|c word]; [done|]. by exists c, (word +:+ suf).
  - cbn [forallb] in Hwf. apply andb_true_iff in Hwf as [Hc _].
    unfold well_formed in Hc. apply andb_true_iff in Hc as [Hc _].
    apply andb_true_iff in Hc as [Hc _]. apply andb_true_iff in Hc as [_ Hname].
    unfold wf_name in Hname. apply andb_true_iff in Hname as [Hname _].
    apply andb_true_iff in Hname as [Hletter _].
    destruct c0 as [lead0 name0 args0 close0]. cbn [inv_name] in Hletter.
    destruct name0 as [|c name0]; [done|].
    exists c, (name0 +:+ "(" +:+ render_args args0 +:+ close0 +:+ ")"
               +:+ render_script more +:+ lead +:+ word +:+ suf).
    split; [|exact Hletter].
    cbn [render_script first_lead]. unfold render_invocation, render_open.
    cbn [inv_lead inv_name inv_args inv_close].
    rewrite !app_assoc_s. reflexivity.
Qed.

(** X18. A name that no opening parenthesis follows is not reported as a
    syntax error: the parser goes back to the start of the script and
    throws the argument-format error there, so that the line it reports
    counts the newlines before the first call of the script a second
    time. *)
Theorem parse_name_without_parenthesis
        (before : list Invocation) (lead word : string) (fuel : nat) :
  forallb well_formed before = true ->
  Forall (fun c => is_Some (table !! inv_name c)) before ->
  all_chars is_separator lead = true ->
  starts_with is_letter word = true ->
  all_chars (fun c => negb (Ascii.eqb c "(")) word = true ->
  script_passes before + separator_passes lead + 3 <= fuel ->
  parse table (render_script before +:+ lead +:+ word) filename fuel
  = Thrown (Error (argument_message filename
                     (1 + script_newlines before + newlines lead
                      + newlines (first_lead before lead)))).
Proof.
  intros Hwf Hknown Hlead Hletter Hparen Hfuel.
  destruct (known_calls_are_built before Hknown) as [built_commands Hb].
  destruct (script_opens_with_letter before lead word EmptyString Hwf Hletter)
    as (c0 & rest0 & Hopen & Hc0).
  rewrite app_empty_r in Hopen.
  destruct word as [|c word]; [done|]. simpl in Hletter.
  destruct (letter_is_no_delimiter c Hletter) as (Hsep & Hslash & Hclose).
  replace fuel with (script_passes before
                     + (separator_passes lead
                        + S (S (S (fuel - script_passes before - separator_passes lead - 3)))))
    by lia.
  set (k := fuel - script_passes before - separator_passes lead - 3).
  unfold parse, initial.
  destruct (pass_script before built_commands EmptyString (lead +:+ String c word) [] None 1
              (separator_passes lead + S (S (S k))) Hwf Hb) as (cur' & H).
  change (EmptyString +:+ render_script before +:+ lead +:+ String c word)
    with (render_script before +:+ lead +:+ String c word) in H.
  change (String.length EmptyString) with 0 in H. rewrite H. clear H.
  cbn [app plus].
  rewrite (pass_separators table filename (render_script before) lead (String c word)
             built_commands cur' _ _ Hlead Hsep).
  set (script := render_script before +:+ lead +:+ String c word) in *.
  set (q := String.length (render_script before) + String.length lead).
  set (ln := 1 + script_newlines before + newlines lead).
  assert (Hscript : script = (render_script before +:+ lead) +:+ String c word)
    by (subst script; by rewrite app_assoc_s).
  assert (Hq : q = String.length (render_script before +:+ lead))
    by (subst q; by rewrite length_app).
  assert (Hin : q < String.length script).
  { rewrite Hscript, Hq. apply inside. }
  assert (Hat : charAt script q = Some c).
  { rewrite Hscript, Hq. by rewrite charAt_app0. }
  rewrite (loop_pass table filename script (S (S k)) _
             (mkLocals built_commands cur' q (Some St_function) [St_default] ln)).
  2:{ exact Hin. }
  2:{ unfold step. cbn [state p]. rewrite Hat. unfold is_separator in Hsep.
      rewrite Hsep, Hslash, Hletter. cbn [andb].
      by destruct (charAt script (S q)). }
  rewrite (loop_pass table filename script (S k) _
             (mkLocals built_commands (Some [ArgString EmptyString]) 0
                       (Some St_argument) [St_function; St_default] ln)).
  2:{ exact Hin. }
  2:{ unfold step. cbn [state p line].
      assert (Hskip : skip_whitespace script q ln = (q, ln)).
      { rewrite Hscript, Hq. by apply skip_whitespace_stay. }
      rewrite Hskip. cbn [set_pos p state stateStack commands currentCommand line].
      rewrite Hat, Hclose.
      assert (Hidx : indexOfFrom "(" script q = (-1)%Z).
      { unfold indexOfFrom. rewrite Hscript, Hq, drop_app. by apply indexOf_go_absent. }
      rewrite Hidx. unfold substr.
      replace (-1 - Z.of_nat q <=? 0)%Z with true by (symmetry; apply Z.leb_le; lia).
      done. }
  apply loop_throw.
  - cbn [p]. lia.
  - unfold step. cbn [state p line].
    assert (Hskip : skip_whitespace script 0 ln
                    = (String.length (first_lead before lead),
                       ln + newlines (first_lead before lead))).
    { rewrite Hopen. apply (skip_whitespace_run EmptyString).
      - destruct before as [|c1 more]; [done|].
        cbn [forallb] in Hwf. apply andb_true_iff in Hwf as [Hc _].
        unfold well_formed in Hc. apply andb_true_iff in Hc as [Hc _].
        apply andb_true_iff in Hc as [Hc _]. by apply andb_true_iff in Hc as [Hc _].
      - by destruct (letter_is_no_delimiter c0 Hc0) as (H0 & _). }
    rewrite Hskip. cbn [set_pos p state stateStack commands currentCommand line].
    assert (Hat0 : charAt script (String.length (first_lead before lead)) = Some c0).
    { rewrite Hopen. by rewrite charAt_app0. }
    rewrite Hat0.
    destruct (ParserFacts.letter_or_slash_starts_no_argument c0 (or_introl Hc0))
      as (N1 & N2 & N3 & _).
    by rewrite N1, N2, N3.
Qed.

End Calls.

End RoundTrip.

(** ** The theorems above at concrete programs *)

Lemma demo_classes_benign : forall c, benign (demo_classes c).
Proof.
  intros [|[|c]]; (split; [|split; [|split]]); intros r e; by repeat split.
Qed.

Lemma demo_classes_quiet : quiet_registration demo_classes.
Proof. intros [|[|c]] e; by repeat split. Qed.



Lemma jump_to_negative_index_throws_at_run_witness :
  Engine_run demo_classes 1 (Engine_gosub (-1) "default" (fst demo_world), [])
  = Thrown TypeError.
Proof.
  apply (jump_to_negative_index_throws_at_run demo_classes (-1) "default" (fst demo_world)
           (mkSequence "default" (Some [0; 1])) [0; 1]).
  - vm_compute. reflexivity.
  - reflexivity.
  - lia.
Defined.

Lemma gosub_past_the_end_returns_at_once_witness :
  Engine_run demo_classes 1 (Engine_gosub 2 "default" (fst demo_world), [])
  = Returned (set_players (players (fst demo_world)
                           ++ [mkPlayer (Some "default") NewCommandHalt 2])
                (fst demo_world), []).
Proof.
  apply (gosub_past_the_end_returns_at_once demo_classes 2 "default" (fst demo_world)
           (mkSequence "default" (Some [0; 1])) [0; 1] 0 []).
  - vm_compute. reflexivity.
  - reflexivity.
  - simpl. lia.
Defined.

Lemma goto_past_the_end_halts_witness :
  exists r e',
    player (fst demo_world) = Some r
    /\ Engine_goto 2 "default" (fst demo_world) = Returned e'
    /\ let halted := write_player r (mkPlayer (Some "default") NewCommandHalt 2)
                       (fst demo_world) in
       (callStack (fst demo_world) = [] ->
        halted_for_good demo_classes halted NewCommandHalt
        /\ forall fuel tr, Engine_run demo_classes (S fuel) (e', tr) = Returned (halted, tr))
       /\ (forall stack top, callStack (fst demo_world) = stack ++ [top] ->
           forall fuel tr,
             Engine_run demo_classes (S fuel) (e', tr)
             = Returned (set_callStack stack (set_player top halted), tr)).
Proof.
  apply (goto_past_the_end_halts demo_classes 2 "default" (fst demo_world)
           (mkPlayer (Some "default") NewCommandReady (-1))
           (mkSequence "default" (Some [0; 1])) [0; 1]).
  - vm_compute. reflexivity.
  - vm_compute. reflexivity.
  - reflexivity.
  - simpl. lia.
Defined.

Lemma tick_only_advances_its_player_witness :
  exists e' more,
    Player_run demo_classes (length [0; 1] + 2) 0 (fst demo_world, []) = Returned (e', [] ++ more)
    /\ advanced 0 (fst demo_world) e'.
Proof.
  apply (tick_only_advances_its_player demo_classes demo_classes_benign 0 (fst demo_world) []
           (mkPlayer (Some "default") NewCommandReady (-1)) [0; 1]).
  - vm_compute. reflexivity.
  - vm_compute. reflexivity.
  - simpl. lia.
  - exact I.
Defined.

Lemma engine_run_pops_only_a_halted_player_witness :
  exists e1 e' more,
    Engine_run demo_classes (length [0; 1] + 2) (fst demo_world, [])
    = Returned (e', [] ++ more)
    /\ Player_run demo_classes (length [0; 1] + 2) 0 (fst demo_world, [])
       = Returned (e1, [] ++ more)
    /\ advanced 0 (fst demo_world) e1
    /\ (e' = e1
        \/ exists stack top pl1,
             callStack (fst demo_world) = stack ++ [top]
             /\ players e1 !! 0 = Some pl1
             /\ Player_isHalted demo_classes pl1 = true
             /\ e' = set_callStack stack (set_player top e1)).
Proof.
  apply (engine_run_pops_only_a_halted_player demo_classes demo_classes_benign 0
           (fst demo_world) [] (mkPlayer (Some "default") NewCommandReady (-1)) [0; 1]).
  - vm_compute. reflexivity.
  - vm_compute. reflexivity.
  - vm_compute. reflexivity.
  - simpl. lia.
  - exact I.
Defined.

Lemma jump_starts_at_index_witness :
  exists w',
    Engine_run demo_classes (length [0; 1] + 2) (Engine_gosub 1 "default" (fst demo_world), [])
    = Returned w'
    /\ exists more, snd w' = [] ++ [Call MInit (Fetched 1); Call MStart (Fetched 1)] ++ more.
Proof.
  apply (jump_starts_at_index demo_classes demo_classes_benign 1 "default" (fst demo_world)
           (mkSequence "default" (Some [0; 1])) [0; 1] 1 []).
  - vm_compute. reflexivity.
  - reflexivity.
  - reflexivity.
Defined.

Lemma one_shot_commands_all_run_in_one_tick_witness :
  exists e',
    Engine_run greeting_classes 3 (fst greeting_world, [])
    = Returned (e', [] ++ activations [0; 1])
    /\ halted_for_good greeting_classes e' NewCommandHalt
    /\ players e' = <[0 := mkPlayer (Some "default") NewCommandHalt 2]>
                      (players (fst greeting_world))
    /\ sequences e' = sequences (fst greeting_world).
Proof.
  apply (one_shot_commands_all_run_in_one_tick greeting_classes 3 0 (fst greeting_world) []
           (mkPlayer (Some "default") NewCommandReady (-1)) [0; 1]).
  - vm_compute. reflexivity.
  - vm_compute. reflexivity.
  - vm_compute. reflexivity.
  - reflexivity.
  - vm_compute. reflexivity.
  - simpl. lia.
  - simpl. lia.
  - repeat constructor; apply plain_one_shot_Log.
  - simpl. lia.
Defined.

Lemma log_script_prints_in_order_witness :
  exists e' tr',
    Engine_run greeting_classes 3 (fst greeting_world, []) = Returned (e', tr')
    /\ console e' = console (fst greeting_world) ++ ["Hello"; "World"]
    /\ valueContainer e' = valueContainer (fst greeting_world)
    /\ labelTable e' = labelTable (fst greeting_world).
Proof.
  apply (log_script_prints_in_order greeting_classes greeting 3 0 (fst greeting_world) []
           (mkPlayer (Some "default") NewCommandReady (-1)) [0; 1]).
  - vm_compute. reflexivity.
  - vm_compute. reflexivity.
  - vm_compute. reflexivity.
  - reflexivity.
  - vm_compute. reflexivity.
  - simpl. lia.
  - simpl. lia.
  - repeat constructor.
  - simpl. lia.
Defined.



Lemma register_does_not_revive_a_halted_engine_witness :
  let w := Engine_register demo_classes [0] "more"
             (fst (after_ticks demo_classes demo_world 1), []) in
  halted_for_good demo_classes (fst w) (Fetched 1)
  /\ Engine_runs demo_classes (S 3) 5 w
     = Returned (fst w, snd w ++ replicate 5 (Call MUpdate (Fetched 1))).
Proof.
  apply (register_does_not_revive_a_halted_engine demo_classes demo_classes_quiet [0] "more"
           (fst (after_ticks demo_classes demo_world 1)) [] (Fetched 1) 3 5).
  exact demo_halted_after_first_tick.
Defined.

Lemma parse_ends_on_scripts_ending_with_newline_witness :
  (exists commands,
     Parser.parse demo_table ("Log()" +:+ nl) "f" (5 * String.length ("Log()" +:+ nl) + 5)
     = Returned commands)
  \/ (exists e,
       Parser.parse demo_table ("Log()" +:+ nl) "f" (5 * String.length ("Log()" +:+ nl) + 5)
       = Thrown e).
Proof.
  apply (ParserFacts.parse_ends_on_scripts_ending_with_newline demo_table ("Log()" +:+ nl) "f").
  split; [discriminate|reflexivity].
Defined.

Lemma sample_calls_built :
  Forall2 (built demo_table) sample_calls [Log "Hello"; Log "again"].
Proof.
  repeat constructor;
    (exists (fun args => match args with
                         | Parser.ArgString message :: _ => Log message
                         | _ => Log "undefined"
                         end); split; [vm_compute; reflexivity|reflexivity]).
Qed.

Lemma sample_calls_known :
  Forall (fun c => is_Some (demo_table !! inv_name c)) sample_calls.
Proof. repeat constructor; vm_compute; by eexists. Qed.

Lemma parse_rendered_script_witness :
  Parser.parse demo_table (render_script sample_calls +:+ nl) "f" 40
  = Returned [Log "Hello"; Log "again"].
Proof.
  apply (RoundTrip.parse_rendered_script demo_table "f" sample_calls nl
           [Log "Hello"; Log "again"] 40).
  - vm_compute. reflexivity.
  - vm_compute. reflexivity.
  - exact sample_calls_built.
  - vm_compute. lia.
Defined.


Lemma parse_drops_unfinished_last_call_witness :
  Parser.parse demo_table (render_script sample_calls +:+ render_open unknown_call) "f" 40
  = Returned [Log "Hello"; Log "again"].
Proof.
  apply (RoundTrip.parse_drops_unfinished_last_call demo_table "f" sample_calls unknown_call
           [Log "Hello"; Log "again"] 40).
  - vm_compute. reflexivity.
  - exact sample_calls_built.
  - vm_compute. reflexivity.
  - vm_compute. reflexivity.
  - vm_compute. reflexivity.
  - vm_compute. lia.
Defined.

Lemma parse_name_without_parenthesis_witness :
  Parser.parse demo_table (render_script sample_calls +:+ nl +:+ "Log") "f" 40
  = Thrown (Error (Parser.argument_message "f"
                     (1 + script_newlines sample_calls + newlines nl
                      + newlines (first_lead sample_calls nl)))).
Proof.
  apply (RoundTrip.parse_name_without_parenthesis demo_table "f" sample_calls nl "Log" 40).
  - vm_compute. reflexivity.
  - exact sample_calls_known.
  - vm_compute. reflexivity.
  - vm_compute. reflexivity.
  - vm_compute. reflexivity.
  - vm_compute. lia.
Defined.
